(** * Fantasy team rankings: scoring, aggregation and ranking

    A shallow embedding of [main.py]: the per-player scoring function
    [calculate_player_points], the team aggregator [calculate_team_points]
    and the ranking loop [rank_teams], over a model of the Python values
    that [response.json()] can deliver (None, bool, int, float, str, list,
    dict) with Python's dynamic typing and exceptions made explicit. *)

From Stdlib Require Import ZArith QArith Qpower List String Ascii Bool Lia.
From Stdlib Require Import Permutation Sorted SpecFloat.
From Stdlib Require Import DecimalString DecimalZ.
Import ListNotations.

Local Open Scope string_scope.
Local Open Scope list_scope.
Local Open Scope Z_scope.

(** ** Exceptions and the error monad *)

(** The exceptions the modelled code can raise. *)
Inductive exn : Type :=
| TypeError
| AttributeError
| KeyError
| OverflowError
| ZeroDivisionError
| MemoryError.

(** A Python expression either evaluates to a value or raises. *)
Inductive result (A : Type) : Type :=
| Ok (a : A)
| Raise (e : exn).

Arguments Ok {A} a.
Arguments Raise {A} e.

Definition bind {A B : Type} (m : result A) (k : A -> result B) : result B :=
  match m with
  | Ok a => k a
  | Raise e => Raise e
  end.

Notation "x <- m ;; k" := (bind m (fun x => k))
  (at level 61, m at next level, right associativity).

(** ** Python numbers

    An [int] is unbounded (Z); a [float] is an IEEE 754 binary64 value,
    here the standard library's specification floats at precision 53 and
    maximal exponent 1024. *)

Module PyNum.

Definition float : Type := spec_float.

Definition prec : Z := 53.
Definition emax : Z := 1024.

Inductive number : Type :=
| NInt (z : Z)
| NFloat (f : float).

(** The binary64 nearest to an integer (ties to even): [double 15] is
    the float 15.0. *)
Definition double (z : Z) : float := binary_normalize prec emax z 0 false.

(** [float(z)]: CPython raises OverflowError when the integer is
    beyond the finite range. *)
Definition float_of_int (z : Z) : result float :=
  match double z with
  | S754_infinity _ => Raise OverflowError
  | f => Ok f
  end.

Definition is_zero (f : float) : bool :=
  match f with
  | S754_zero _ => true
  | _ => false
  end.

(** [a / b] on two ints is the correctly rounded quotient, computed
    from the integers themselves and not from their conversions. *)
Definition int_truediv (a b : Z) : result float :=
  match b with
  | Z0 => Raise ZeroDivisionError
  | _ =>
      match a with
      | Z0 => Ok (S754_zero (b <? 0))
      | _ =>
          match SFdiv prec emax
                  (S754_finite (a <? 0) (Z.to_pos (Z.abs a)) 0)
                  (S754_finite (b <? 0) (Z.to_pos (Z.abs b)) 0) with
          | S754_infinity _ => Raise OverflowError
          | f => Ok f
          end
      end
  end.

(** The operand of a mixed operation is converted to float first. *)
Definition to_float (n : number) : result float :=
  match n with
  | NInt z => float_of_int z
  | NFloat f => Ok f
  end.

Definition num_mul (a b : number) : result number :=
  match a, b with
  | NInt x, NInt y => Ok (NInt (x * y))
  | _, _ =>
      x <- to_float a ;;
      y <- to_float b ;;
      Ok (NFloat (SFmul prec emax x y))
  end.

Definition num_add (a b : number) : result number :=
  match a, b with
  | NInt x, NInt y => Ok (NInt (x + y))
  | _, _ =>
      x <- to_float a ;;
      y <- to_float b ;;
      Ok (NFloat (SFadd prec emax x y))
  end.

Definition num_truediv (a b : number) : result number :=
  match a, b with
  | NInt x, NInt y =>
      q <- int_truediv x y ;;
      Ok (NFloat q)
  | _, _ =>
      x <- to_float a ;;
      y <- to_float b ;;
      if is_zero y then Raise ZeroDivisionError
      else Ok (NFloat (SFdiv prec emax x y))
  end.

(** The exact value a number stands for.  Python compares an int with a
    float, and two floats, by these values: [7 == 7.0], [-0.0 == 0.0],
    and NaN is unordered with everything. *)
Inductive xvalue : Type :=
| XNaN
| XInf (negative : bool)
| XFin (q : Q).

Definition float_value (f : float) : xvalue :=
  match f with
  | S754_zero _ => XFin 0%Q
  | S754_infinity s => XInf s
  | S754_nan => XNaN
  | S754_finite s m e =>
      XFin (inject_Z (cond_Zopp s (Zpos m)) * Qpower 2 e)%Q
  end.

Definition num_value (n : number) : xvalue :=
  match n with
  | NInt z => XFin (inject_Z z)
  | NFloat f => float_value f
  end.

Definition xcompare (x y : xvalue) : option comparison :=
  match x, y with
  | XNaN, _ | _, XNaN => None
  | XInf s, XInf t =>
      Some (if s then (if t then Eq else Lt) else (if t then Gt else Eq))
  | XInf s, XFin _ => Some (if s then Lt else Gt)
  | XFin _, XInf t => Some (if t then Gt else Lt)
  | XFin p, XFin q => Some (p ?= q)%Q
  end.

Definition num_compare (a b : number) : option comparison :=
  xcompare (num_value a) (num_value b).

(** [a < b] *)
Definition num_ltb (a b : number) : bool :=
  match num_compare a b with
  | Some Lt => true
  | _ => false
  end.

(** [a == b] *)
Definition num_eqb (a b : number) : bool :=
  match num_compare a b with
  | Some Eq => true
  | _ => false
  end.

Definition is_nan (n : number) : bool :=
  match num_value n with
  | XNaN => true
  | _ => false
  end.

End PyNum.

Import PyNum.

(** ** Python values *)

#[local] Set Warnings "-register-all".

(** What [json] decoding produces.  A dict is the list of its items in
    insertion order, one item per key; a lookup returns the binding of
    the key. *)
Inductive value : Type :=
| VNone
| VBool (b : bool)
| VNum (n : number)
| VStr (s : string)
| VList (l : list value)
| VDict (d : list (string * value)).

Definition VInt (z : Z) : value := VNum (NInt z).
Definition VFloat (f : float) : value := VNum (NFloat f).

Fixpoint lookup (k : string) (d : list (string * value)) : option value :=
  match d with
  | [] => None
  | (k', v) :: d' => if String.eqb k k' then Some v else lookup k d'
  end.

(** [bool] is a subclass of [int]: in arithmetic and comparisons True is
    1 and False is 0. *)
Definition as_number (v : value) : option number :=
  match v with
  | VBool b => Some (NInt (Z.b2z b))
  | VNum n => Some n
  | _ => None
  end.

(** Truth value testing, as [if v:] and [not v] do it. *)
Definition truthy (v : value) : bool :=
  match v with
  | VNone => false
  | VBool b => b
  | VNum n => negb (num_eqb n (NInt 0))
  | VStr s => negb (String.eqb s "")
  | VList l => match l with [] => false | _ => true end
  | VDict d => match d with [] => false | _ => true end
  end.

(** [v == z] for an int literal [z]. *)
Definition eq_int (v : value) (z : Z) : bool :=
  match as_number v with
  | Some n => num_eqb n (NInt z)
  | None => false
  end.

(** [v == s] for a str literal [s]. *)
Definition eq_str (v : value) (s : string) : bool :=
  match v with
  | VStr t => String.eqb t s
  | _ => false
  end.

(** [v in [z1, ..., zn]] for a list display of int literals. *)
Definition in_int_list (v : value) (zs : list Z) : bool :=
  existsb (eq_int v) zs.

(** [s] occurs in [t] as a substring. *)
Fixpoint is_substring (s t : string) : bool :=
  if prefix s t then true
  else match t with
       | EmptyString => false
       | String _ t' => is_substring s t'
       end.

(** [k in c] for a str literal [k]: key membership for a dict, element
    membership for a list, substring test for a str; other operands are
    not containers. *)
Definition contains (k : string) (c : value) : result bool :=
  match c with
  | VDict d => Ok (match lookup k d with Some _ => true | None => false end)
  | VList l => Ok (existsb (fun v => eq_str v k) l)
  | VStr t => Ok (is_substring k t)
  | _ => Raise TypeError
  end.

(** [c[k]] for a str literal [k]. *)
Definition subscript (c : value) (k : string) : result value :=
  match c with
  | VDict d =>
      match lookup k d with
      | Some v => Ok v
      | None => Raise KeyError
      end
  | _ => Raise TypeError
  end.

(** [c.get(k, default)]: only a dict has the method. *)
Definition get (c : value) (k : string) (default : value) : result value :=
  match c with
  | VDict d =>
      match lookup k d with
      | Some v => Ok v
      | None => Ok default
      end
  | _ => Raise AttributeError
  end.

Fixpoint chars (s : string) : list value :=
  match s with
  | EmptyString => []
  | String c s' => VStr (String c EmptyString) :: chars s'
  end.

(** The items [for x in c] visits. *)
Definition iterate (c : value) : result (list value) :=
  match c with
  | VList l => Ok l
  | VDict d => Ok (map (fun kv => VStr (fst kv)) d)
  | VStr s => Ok (chars s)
  | _ => Raise TypeError
  end.

(** [len(c)] *)
Definition len (c : value) : result nat :=
  match c with
  | VList l => Ok (List.length l)
  | VDict d => Ok (List.length d)
  | VStr s => Ok (String.length s)
  | _ => Raise TypeError
  end.

Fixpoint repeat_string (s : string) (n : nat) : string :=
  match n with
  | O => ""
  | S n' => (s ++ repeat_string s n')%string
  end.

Fixpoint repeat_list (l : list value) (n : nat) : list value :=
  match n with
  | O => []
  | S n' => l ++ repeat_list l n'
  end.

Definition as_int (v : value) : option Z :=
  match v with
  | VBool b => Some (Z.b2z b)
  | VNum (NInt z) => Some z
  | _ => None
  end.

(** The greatest index, [sys.maxsize] of a 64-bit build. *)
Definition index_max : Z := 2 ^ 63 - 1.

(** The count of a repetition is taken as an index: an int that does not
    fit one raises OverflowError. *)
Definition as_index (n : Z) : result Z :=
  if (n <? - 2 ^ 63) || (index_max <? n) then Raise OverflowError
  else Ok n.

(** [s * n] for a str: empty for a count below 1, OverflowError when the
    repeated string would be longer than the greatest index.  (Running
    out of memory on a result that is within the bounds is not
    modelled.) *)
Definition repeat_str (s : string) (n : Z) : result value :=
  count <- as_index n ;;
  if count <? 1 then Ok (VStr "")
  else if index_max / count <? Z.of_nat (String.length s)
       then Raise OverflowError
       else Ok (VStr (repeat_string s (Z.to_nat count))).

(** [l * n] for a list: empty for a count below 1, MemoryError when the
    repeated list would be longer than the greatest index. *)
Definition repeat_seq (l : list value) (n : Z) : result value :=
  count <- as_index n ;;
  if count <? 1 then Ok (VList [])
  else if index_max / count <? Z.of_nat (List.length l)
       then Raise MemoryError
       else Ok (VList (repeat_list l (Z.to_nat count))).

(** [a * b]: numeric product, or repetition of a str or list by an int. *)
Definition py_mul (a b : value) : result value :=
  match as_number a, as_number b with
  | Some x, Some y => n <- num_mul x y ;; Ok (VNum n)
  | _, _ =>
      match a, as_int b, as_int a, b with
      | VStr s, Some n, _, _ => repeat_str s n
      | VList l, Some n, _, _ => repeat_seq l n
      | _, _, Some n, VStr s => repeat_str s n
      | _, _, Some n, VList l => repeat_seq l n
      | _, _, _, _ => Raise TypeError
      end
  end.

(** [a / b]: true division, defined on numbers only. *)
Definition py_truediv (a b : value) : result value :=
  match as_number a, as_number b with
  | Some x, Some y => n <- num_truediv x y ;; Ok (VNum n)
  | _, _ => Raise TypeError
  end.

(** [total + v] where [total] is a number, as the accumulator of [sum]
    started at the int 0 always is. *)
Definition add_to (total : number) (v : value) : result number :=
  match as_number v with
  | Some n => num_add total n
  | None => Raise TypeError
  end.

(** ** The program *)

Record TeamScore : Type := mkTeamScore {
  team_id : Z;
  team_name : string;
  total_pts : number;
  player_count : nat;
  players : value
}.

(** The court positions of the bench, the list display at line 53. *)
Definition bench : list Z := [7; 8; 9; 10].

(** Calculate points for a player, applying captain multiplier and bench
    penalty if applicable. *)
Definition calculate_player_points (player : value) : result value :=
  base_pts <- get player "pts" (VInt 0) ;;
  is_captain <- get player "is_captain" (VBool false) ;;
  captain_multiplier <- get player "captain_multiplier" (VInt 1) ;;
  court_position <- get player "court_position" (VInt 0) ;;
  final_pts <- (if truthy is_captain
                then py_mul base_pts captain_multiplier
                else Ok base_pts) ;;
  final_pts <- (if in_int_list court_position bench
                then py_truediv final_pts (VInt 2)
                else Ok final_pts) ;;
  Ok final_pts.

(** [sum(calculate_player_points(player) for player in players)] with the
    running total made explicit: the generator is consumed item by item,
    each score being added to the total before the next one is computed.
    The built-in starts from the int 0 and adds the items from left to
    right with [+]; the extra-precision accumulation of floats that
    CPython has from version 3.12 on is not modelled. *)
Fixpoint sum_points (total : number) (items : list value) : result number :=
  match items with
  | [] => Ok total
  | player :: rest =>
      pts <- calculate_player_points player ;;
      total' <- add_to total pts ;;
      sum_points total' rest
  end.

(** The condition of line 64,
    [not data or 'data' not in data or 'players' not in data['data']],
    with the short-circuit evaluation of [or]. *)
Definition no_players (data : value) : result bool :=
  if negb (truthy data) then Ok true
  else
    has_data <- contains "data" data ;;
    if negb has_data then Ok true
    else
      inner <- subscript data "data" ;;
      has_players <- contains "players" inner ;;
      Ok (negb has_players).

(** Calculate total points for a team.  [get_team_preview] is the HTTP
    collaborator: it answers with the decoded JSON body of the response,
    or with None after a request error. *)
Definition calculate_team_points
    (get_team_preview : Z -> string -> value)
    (team_id : Z) (team_name : string) (bearer_token : string)
  : result TeamScore :=
  let data := get_team_preview team_id bearer_token in
  degrade <- no_players data ;;
  if degrade then
    Ok (mkTeamScore team_id team_name (NInt 0) 0 (VList []))
  else
    inner <- subscript data "data" ;;
    players <- subscript inner "players" ;;
    items <- iterate players ;;
    total_pts <- sum_points (NInt 0) items ;;
    count <- len players ;;
    Ok (mkTeamScore team_id team_name total_pts count players).

(** What the language promises of [l.sort(key=key, reverse=True)] on
    number keys: a stable sort into descending key order.  On keys
    without a NaN there is one such list, the one the straight insertion
    sort [sort_reverse] computes ([stable_sort_unique] below); it is the
    reference the built-in is compared with. *)
Section ListSort.

Context {A : Type}.
Variable key : A -> number.

Fixpoint insert_reverse (x : A) (l : list A) : list A :=
  match l with
  | [] => [x]
  | y :: l' =>
      if num_ltb (key x) (key y) then y :: insert_reverse x l'
      else x :: l
  end.

Fixpoint sort_reverse (l : list A) : list A :=
  match l with
  | [] => []
  | x :: l' => insert_reverse x (sort_reverse l')
  end.

(** [a] may stand before [b] in descending key order: the key of [b] is
    not greater than the key of [a]. *)
Definition key_before (a b : A) : Prop := num_ltb (key a) (key b) = false.

(** The key of [a] equals [k]. *)
Definition key_same (k : number) (a : A) : bool := num_eqb (key a) k.

(** The key of [a] is a number proper, not a NaN. *)
Definition key_proper (a : A) : Prop := is_nan (key a) = false.

(** What the language promises of [sort(key=key, reverse=True)] on keys
    that are numbers proper: a permutation in descending key order in
    which the items of equal key keep their order. *)
Definition stable_descending_sort (sorter : list A -> list A) : Prop :=
  forall l : list A,
    Forall key_proper l ->
    Permutation l (sorter l) /\
    StronglySorted key_before (sorter l) /\
    (forall k, filter (key_same k) (sorter l) = filter (key_same k) l).

End ListSort.

(** [l.sort(key=key, reverse=True)] as CPython 3.11 runs it on number
    keys.  The list is reversed, sorted in ascending order and reversed
    again.  The ascending sort of a list of fewer than 64 items takes the
    run at the head of the list (the longest prefix without a descent,
    or the longest strictly descending prefix, which it reverses:
    [count_run]) and inserts the other items one by one at the place a
    binary search finds ([binarysort]); keys are compared with [<] only.
    A list of 64 items or more is cut into runs of 32 to 64 items, each
    sorted in this way, and the runs are merged: on keys without a NaN
    that yields the same list ([list_sort_reverse_stable_sort] below);
    what it yields on 64 or more keys with a NaN among them is not
    modelled. *)
Section BuiltinSort.

Context {A : Type}.
Variable key : A -> number.

(** The comparison of two items by their keys, [key(x) < key(y)]. *)
Definition key_lt (x y : A) : bool := num_ltb (key x) (key y).

(** [a] may stand before [b] in ascending key order. *)
Definition key_rising (a b : A) : Prop := key_lt b a = false.

(** The items that carry on a run without a descent, and the others. *)
Fixpoint ascending_run (prev : A) (l : list A) : list A * list A :=
  match l with
  | [] => ([], [])
  | x :: l' =>
      if key_lt x prev then ([], l)
      else let (run, rest) := ascending_run x l' in (x :: run, rest)
  end.

(** The items that carry on a strictly descending run, and the others. *)
Fixpoint descending_run (prev : A) (l : list A) : list A * list A :=
  match l with
  | [] => ([], [])
  | x :: l' =>
      if key_lt x prev
      then let (run, rest) := descending_run x l' in (x :: run, rest)
      else ([], l)
  end.

(** [count_run] and the reversal of a descending run: the run at the head
    of the list, in ascending order, and the items behind it. *)
Definition first_run (l : list A) : list A * list A :=
  match l with
  | x0 :: x1 :: l' =>
      if key_lt x1 x0
      then let (run, rest) := descending_run x1 l' in
           (rev (x0 :: x1 :: run), rest)
      else let (run, rest) := ascending_run x1 l' in
           (x0 :: x1 :: run, rest)
  | _ => (l, [])
  end.

(** The binary search of [binarysort] between the places [l] and [r] of
    the sorted items [a]: the middle item is compared with the pivot,
    the search goes on to its left when the pivot is less and to its
    right when not, and ends when [l] meets [r]. *)
Fixpoint bisect (fuel : nat) (pivot : A) (a : list A) (l r : nat) : nat :=
  match fuel with
  | O => l
  | S fuel' =>
      if (l <? r)%nat then
        let p := (l + (r - l) / 2)%nat in
        match nth_error a p with
        | Some x =>
            if key_lt pivot x then bisect fuel' pivot a l p
            else bisect fuel' pivot a (S p) r
        | None => l
        end
      else l
  end.

(** One step of [binarysort]: the pivot goes to the place found. *)
Definition binary_insert (a : list A) (pivot : A) : list A :=
  let pos := bisect (List.length a) pivot a 0 (List.length a) in
  firstn pos a ++ pivot :: skipn pos a.

Definition sort_ascending (l : list A) : list A :=
  let (run, rest) := first_run l in
  fold_left binary_insert rest run.

Definition list_sort_reverse (l : list A) : list A :=
  rev (sort_ascending (rev l)).

End BuiltinSort.

(** Line 98: [team_scores.sort(key=lambda x: x.total_pts, reverse=True)]. *)
Definition sort_team_scores (team_scores : list TeamScore) : list TeamScore :=
  list_sort_reverse total_pts team_scores.

(** The loop of lines 89 to 93 over [teams.items()], a dict of team names
    to team ids in insertion order (the progress display is left out). *)
Fixpoint collect_team_scores
    (get_team_preview : Z -> string -> value)
    (items : list (string * Z)) (bearer_token : string)
  : result (list TeamScore) :=
  match items with
  | [] => Ok []
  | (team_name, team_id) :: rest =>
      team_score <-
        calculate_team_points get_team_preview team_id team_name bearer_token ;;
      team_scores <- collect_team_scores get_team_preview rest bearer_token ;;
      Ok (team_score :: team_scores)
  end.

(** Process all teams and rank them by total points. *)
Definition rank_teams
    (get_team_preview : Z -> string -> value)
    (teams : list (string * Z)) (bearer_token : string)
  : result (list TeamScore) :=
  team_scores <- collect_team_scores get_team_preview teams bearer_token ;;
  Ok (sort_team_scores team_scores).

(** ** The fetcher *)

(** [str(z)] for an int: its decimal digits. *)
Definition str_of_int (z : Z) : string :=
  NilZero.string_of_int (Z.to_int z).

(** What the [try] block of [get_team_preview] comes to: the decoded body
    that [response.json()] returns, or a [RequestException] with its
    message [str(e)] and, when the server answered, the text of the
    response ([e.response.text]; [e.response] is None otherwise). *)
Inductive attempt : Type :=
| Answered (body : value)
| RequestFailed (message : string) (response_text : option string).

(** Line 20. *)
Definition preview_url (team_id : Z) : string :=
  ("https://fantaking-api.dunkest.com/api/v1/fantasy-teams/"
   ++ str_of_int team_id ++ "/preview")%string.

(** Lines 22 to 25. *)
Definition preview_headers (bearer_token : string) : list (string * string) :=
  [("Authorization", ("Bearer " ++ bearer_token)%string);
   ("Content-Type", "application/json")].

(** Fetch team preview data from the API with Bearer token authentication.
    [http_get] is the network: what [requests.get], [raise_for_status]
    and [json] make of a URL and its headers.  The function returns its
    value together with the messages it shows with [st.error]. *)
Definition get_team_preview
    (http_get : string -> list (string * string) -> attempt)
    (team_id : Z) (bearer_token : string)
  : value * list string :=
  match http_get (preview_url team_id) (preview_headers bearer_token) with
  | Answered body => (body, [])
  | RequestFailed message response_text =>
      (VNone,
       [("Error fetching data for team " ++ str_of_int team_id ++ ": "
         ++ message)%string]
       ++ match response_text with
          | Some text => [("Response: " ++ text)%string]
          | None => []
          end)
  end.

(** The fetcher as the aggregator calls it, the messages put aside. *)
Definition preview_of
    (http_get : string -> list (string * string) -> attempt)
    (team_id : Z) (bearer_token : string) : value :=
  fst (get_team_preview http_get team_id bearer_token).

(** ** The rows of the team details (lines 184 to 218 of [main]) *)

(** The strings of the display that are not ASCII, as their UTF-8 bytes:
    the division sign followed by 2, the star and the chair. *)
Definition divided_by_2 : string :=
  String "195" (String "183" "2").

Definition star : string :=
  String "226" (String "173" (String "144" "")).

Definition chair : string :=
  String "240" (String "159" (String "170" (String "145" ""))).

Record PlayerRow : Type := mkPlayerRow {
  row_name : string;
  row_position : value;
  row_team : value;
  row_base_points : value;
  row_modifiers : string;
  row_final_points : value;
  row_quotation : value;
  row_captain : string;
  row_bench : string
}.

Section Display.

(** [str(v)], the conversion an f-string applies to a value. *)
Variable format : value -> string.

(** Lines 196 to 201: the modifier string. *)
Definition modifier_string
    (is_captain captain_multiplier : value) (was_on_bench : bool) : string :=
  let modifiers :=
    (if truthy is_captain
     then [("x" ++ format captain_multiplier)%string] else [])
    ++ (if was_on_bench then [divided_by_2] else []) in
  match modifiers with
  | [] => "-"
  | _ => String.concat " " modifiers
  end.

(** Lines 187 to 213: the row of one player. *)
Definition player_row (p : value) : result PlayerRow :=
  base_pts <- get p "pts" (VInt 0) ;;
  is_captain <- get p "is_captain" (VBool false) ;;
  captain_multiplier <- get p "captain_multiplier" (VInt 1) ;;
  court_position <- get p "court_position" (VInt 0) ;;
  let was_on_bench := in_int_list court_position bench in
  final_pts <- calculate_player_points p ;;
  let modifier_str :=
    modifier_string is_captain captain_multiplier was_on_bench in
  first_name <- get p "first_name" (VStr "") ;;
  last_name <- get p "last_name" (VStr "") ;;
  position <- get p "position" (VDict []) ;;
  position_name <- get position "name" (VStr "Unknown") ;;
  team <- get p "team" (VDict []) ;;
  abbreviation <- get team "abbreviation" (VStr "N/A") ;;
  quotation <- get p "quotation" (VInt 0) ;;
  Ok (mkPlayerRow
        (format first_name ++ " " ++ format last_name)%string
        position_name abbreviation base_pts modifier_str final_pts quotation
        (if truthy is_captain then star else "")
        (if was_on_bench then chair else "")).

Fixpoint player_rows (items : list value) : result (list PlayerRow) :=
  match items with
  | [] => Ok []
  | p :: rest =>
      row <- player_row p ;;
      rows <- player_rows rest ;;
      Ok (row :: rows)
  end.

(** Lines 184 to 218: the rows shown for a team, none when the team has
    no players ("No player data available"). *)
Definition players_data (ts : TeamScore) : result (list PlayerRow) :=
  if truthy (players ts) then
    items <- iterate (players ts) ;;
    player_rows items
  else Ok [].

End Display.

(** ** The specification's reading

    The definitions of this part follow the words of the specification:
    they are what the program above is compared with. *)

Module Spec.

(** A player record with every field resolved. *)
Record PlayerRecord : Type := mkPlayerRecord {
  points : number;
  isCaptain : bool;
  captainMultiplier : number;
  courtPosition : Z
}.

(** The documented defaults of the four scoring fields. *)
Definition defaults : list (string * value) :=
  [("pts", VInt 0); ("is_captain", VBool false);
   ("captain_multiplier", VInt 1); ("court_position", VInt 0)].

(** A record in which the absent fields carry their defaults. *)
Definition with_defaults (d : list (string * value)) : list (string * value) :=
  d ++ defaults.

Definition number_field
    (d : list (string * value)) (k : string) (default : number)
  : option number :=
  match lookup k d with
  | None => Some default
  | Some (VNum n) => Some n
  | Some _ => None
  end.

Definition bool_field (d : list (string * value)) (k : string) (default : bool)
  : option bool :=
  match lookup k d with
  | None => Some default
  | Some (VBool b) => Some b
  | Some _ => None
  end.

Definition int_field (d : list (string * value)) (k : string) (default : Z)
  : option Z :=
  match lookup k d with
  | None => Some default
  | Some (VNum (NInt z)) => Some z
  | Some _ => None
  end.

(** Reading a JSON object as a player record: points and multiplier are
    numbers, the captain flag a boolean, the court position an integer,
    each optional. *)
Definition decode (d : list (string * value)) : option PlayerRecord :=
  match number_field d "pts" (NInt 0),
        bool_field d "is_captain" false,
        number_field d "captain_multiplier" (NInt 1),
        int_field d "court_position" 0 with
  | Some p, Some c, Some m, Some cp => Some (mkPlayerRecord p c m cp)
  | _, _, _, _ => None
  end.

(** The bench set {7, 8, 9, 10}. *)
Definition on_bench (cp : Z) : bool :=
  (cp =? 7) || (cp =? 8) || (cp =? 9) || (cp =? 10).

(** Step 2 of the scoring algorithm. *)
Definition captain_adjust (r : PlayerRecord) : result number :=
  if isCaptain r then num_mul (points r) (captainMultiplier r)
  else Ok (points r).

(** Step 3 of the scoring algorithm. *)
Definition bench_adjust (r : PlayerRecord) (adjusted : number)
  : result number :=
  if on_bench (courtPosition r) then num_truediv adjusted (NInt 2)
  else Ok adjusted.

Definition score (r : PlayerRecord) : result number :=
  adjusted <- captain_adjust r ;;
  bench_adjust r adjusted.

(** A record whose points and multiplier are floats, as the data model
    types them. *)
Definition float_record (r : PlayerRecord) : Prop :=
  (exists p, points r = NFloat p) /\ (exists m, captainMultiplier r = NFloat m).

(** A JSON value that reads as such a record. *)
Definition float_player (player : value) : Prop :=
  exists d r, player = VDict d /\ decode d = Some r /\ float_record r.

(** The zero-valued summary of a team without data. *)
Definition zero_summary (id : Z) (name : string) : TeamScore :=
  mkTeamScore id name (NInt 0) 0 (VList []).

(** A fetch result that carries a players list. *)
Definition has_players_list (data : value) (roster : list value) : Prop :=
  exists d inner,
    data = VDict d /\
    lookup "data" d = Some (VDict inner) /\
    lookup "players" inner = Some (VList roster).

(** The fetch results the guard of the aggregator recognises: nothing
    or an empty answer, an object without the "data" member, or one
    whose "data" member is an object without the "players" member. *)
Inductive no_roster : value -> Prop :=
| absent : no_roster VNone
| empty : forall data, truthy data = false -> no_roster data
| no_data_member : forall d, lookup "data" d = None -> no_roster (VDict d)
| no_players_member : forall d inner,
    lookup "data" d = Some (VDict inner) ->
    lookup "players" inner = None ->
    no_roster (VDict d).

(** [k not in c] holds of a container [c]: a dict without the key [k],
    a list without the item [k], a str in which [k] does not occur. *)
Inductive lacks (k : string) : value -> Prop :=
| lacks_key : forall d, lookup k d = None -> lacks k (VDict d)
| lacks_item : forall l, Forall (fun v => v <> VStr k) l -> lacks k (VList l)
| lacks_substring : forall s, is_substring k s = false -> lacks k (VStr s).

(** The fetch results on which the aggregator degrades to the zero-valued
    summary: nothing or an empty answer (None, false, zero, an empty str,
    list or dict), a dict, list or str that does not contain "data", and
    a dict whose "data" member is a dict, list or str that does not
    contain "players". *)
Inductive without_players : value -> Prop :=
| unanswered : forall data, truthy data = false -> without_players data
| without_data : forall data, lacks "data" data -> without_players data
| without_players_member : forall d inner,
    lookup "data" d = Some inner ->
    lacks "players" inner ->
    without_players (VDict d).

(** One pass over the scores from left to right, from the int 0. *)
Definition sum_left (scores : list value) : result number :=
  fold_left (fun acc s => total <- acc ;; add_to total s) scores (Ok (NInt 0)).

(** [a] may stand before [b] in a ranking by descending total: [b]'s
    total is not greater than [a]'s. *)
Definition not_below : TeamScore -> TeamScore -> Prop :=
  key_before total_pts.

(** The summaries whose total equals [k], in the order of the list. *)
Definition with_total (k : number) (l : list TeamScore) : list TeamScore :=
  filter (key_same total_pts k) l.

End Spec.

(** ** The records of the specification's examples *)

Module Examples.

(** [{points:10, isCaptain:true, captainMultiplier:3, courtPosition:9}] *)
Definition captain_on_bench : list (string * value) :=
  [("pts", VInt 10); ("is_captain", VBool true);
   ("captain_multiplier", VInt 3); ("court_position", VInt 9)].

(** [{points:10, courtPosition:11}] *)
Definition coach : list (string * value) :=
  [("pts", VInt 10); ("court_position", VInt 11)].

(** [{points:10, isCaptain:true, captainMultiplier:2, courtPosition:11}] *)
Definition captain_coach : list (string * value) :=
  [("pts", VInt 10); ("is_captain", VBool true);
   ("captain_multiplier", VInt 2); ("court_position", VInt 11)].

(** A player who is not the captain and carries a multiplier. *)
Definition starter (multiplier : value) : list (string * value) :=
  [("pts", VInt 10); ("is_captain", VBool false);
   ("captain_multiplier", multiplier); ("court_position", VInt 3)].

(** The answers [{"data": null}] and [{"data": {"players": null}}]. *)
Definition null_data : value := VDict [("data", VNone)].
Definition null_players : value :=
  VDict [("data", VDict [("players", VNone)])].

(** A roster whose players score 5.0, 2.5 and -1.0: two players on the
    bench and one with negative points. *)
Definition roster : list value :=
  [VDict [("pts", VInt 10); ("court_position", VInt 8)];
   VDict [("pts", VInt 5); ("court_position", VInt 7)];
   VDict [("pts", VFloat (SFopp (double 1)))]].

Definition roster_answer : value :=
  VDict [("data", VDict [("players", VList roster)])].


(** The doubles 2.5 = 5/2 and 6.5 = 13/2. *)
Definition float_2_5 : float := S754_finite false 5629499534213120 (-51).
Definition float_6_5 : float := S754_finite false 7318349394477056 (-50).

(** The summaries (A,10), (B,20), (C,10). *)
Definition team (id : Z) (name : string) (total : Z) : TeamScore :=
  mkTeamScore id name (NInt total) 0 (VList []).

Definition team_A : TeamScore := team 1 "A" 10.
Definition team_B : TeamScore := team 2 "B" 20.
Definition team_C : TeamScore := team 3 "C" 10.

(** A summary stripped of everything but its total. *)
Definition anonymous (t : TeamScore) : TeamScore :=
  mkTeamScore 0 "" (total_pts t) 0 VNone.

(** A league of three teams and the answers of its fetcher: one player
    each, with 10, 20 and 10 points. *)
Definition league : list (string * Z) := [("A", 1); ("B", 2); ("C", 3)].

Definition single (pts : Z) : value := VList [VDict [("pts", VInt pts)]].

Definition preview (team_id : Z) (bearer_token : string) : value :=
  if team_id =? 2 then VDict [("data", VDict [("players", single 20)])]
  else VDict [("data", VDict [("players", single 10)])].

Definition fetched (id : Z) (name : string) (pts : Z) : TeamScore :=
  mkTeamScore id name (NInt pts) 1 (single pts).

(** A summary whose total is NaN; summaries with the totals 1, NaN, 2
    and with the totals 1, 1, NaN, 1, 1, 1, 2. *)
Definition nan_team (id : Z) (name : string) : TeamScore :=
  mkTeamScore id name (NFloat S754_nan) 0 (VList []).

Definition nan_between : list TeamScore :=
  [team 1 "A" 1; nan_team 2 "B"; team 3 "C" 2].

Definition nan_among_ties : list TeamScore :=
  [team 0 "A" 1; team 1 "B" 1; nan_team 2 "C"; team 3 "D" 1;
   team 4 "E" 1; team 5 "F" 1; team 6 "G" 2].

(** The players of a team whose total is NaN: the points 1e400 and
    -1e400 of a JSON answer are read as the infinities. *)
Definition overflowing : value :=
  VList [VDict [("pts", VFloat (S754_infinity false))];
         VDict [("pts", VFloat (S754_infinity true))]].

(** The answers of a fetcher to the league: 1 point, the infinities and
    2 points. *)
Definition nan_preview (team_id : Z) (bearer_token : string) : value :=
  VDict [("data",
          VDict [("players",
                  if team_id =? 2 then overflowing
                  else if team_id =? 3 then single 2 else single 1)])].

End Examples.

(** * Properties *)

(** ** The order of Python numbers *)

Section NumberOrder.

Lemma xcompare_swap (x y : xvalue) :
  xcompare y x = option_map CompOpp (xcompare x y).
Proof.
  destruct x as [|s|p], y as [|t|q]; simpl; trivial.
  - destruct s, t; reflexivity.
  - destruct s; reflexivity.
  - destruct t; reflexivity.
  - now rewrite <- Qcompare_antisym.
Qed.

Lemma xcompare_lt_trans (x y z : xvalue) :
  xcompare x y = Some Lt -> xcompare y z = Some Lt -> xcompare x z = Some Lt.
Proof.
  destruct x as [|s|p], y as [|t|q], z as [|u|r]; simpl;
    try discriminate; try (destruct s); try (destruct t); try (destruct u);
    try discriminate; trivial.
  intros Hpq Hqr. injection Hpq as Hpq. injection Hqr as Hqr.
  f_equal. apply Qlt_alt. apply Qlt_alt in Hpq, Hqr.
  eapply Qlt_trans; eassumption.
Qed.

Lemma xcompare_eq_left (x y z : xvalue) :
  xcompare x y = Some Eq -> xcompare x z = xcompare y z.
Proof.
  destruct x as [|s|p], y as [|t|q], z as [|u|r]; simpl;
    try discriminate; try (destruct s); try (destruct t); try (destruct u);
    try discriminate; trivial.
  intros Hpq. injection Hpq as Hpq. apply Qeq_alt in Hpq.
  f_equal. now rewrite Hpq.
Qed.

Lemma xcompare_refl (x : xvalue) :
  x <> XNaN -> xcompare x x = Some Eq.
Proof.
  destruct x as [|s|p]; simpl; intros H.
  - now elim H.
  - now destruct s.
  - f_equal. now apply Qeq_alt.
Qed.

Lemma num_ltb_asym (a b : number) :
  num_ltb a b = true -> num_ltb b a = false.
Proof.
  unfold num_ltb, num_compare.
  rewrite (xcompare_swap (num_value a) (num_value b)).
  destruct (xcompare (num_value a) (num_value b)) as [[]|];
    simpl; congruence.
Qed.

Lemma num_ltb_trans (a b c : number) :
  num_ltb a b = true -> num_ltb b c = true -> num_ltb a c = true.
Proof.
  unfold num_ltb, num_compare. intros Hab Hbc.
  rewrite (xcompare_lt_trans (num_value a) (num_value b) (num_value c)).
  - reflexivity.
  - destruct (xcompare (num_value a) (num_value b)) as [[]|];
      congruence.
  - destruct (xcompare (num_value b) (num_value c)) as [[]|];
      congruence.
Qed.

Lemma num_eqb_sym (a b : number) : num_eqb a b = num_eqb b a.
Proof.
  unfold num_eqb, num_compare.
  rewrite (xcompare_swap (num_value a) (num_value b)).
  destruct (xcompare (num_value a) (num_value b)) as [[]|]; reflexivity.
Qed.

Lemma num_eqb_ltb_left (a b c : number) :
  num_eqb a b = true -> num_ltb a c = num_ltb b c.
Proof.
  unfold num_eqb, num_ltb, num_compare. intros Hab.
  rewrite (xcompare_eq_left (num_value a) (num_value b) (num_value c)).
  - reflexivity.
  - destruct (xcompare (num_value a) (num_value b)) as [[]|];
      congruence.
Qed.

Lemma num_eqb_trans (a b c : number) :
  num_eqb a b = true -> num_eqb b c = true -> num_eqb a c = true.
Proof.
  unfold num_eqb, num_compare. intros Hab Hbc.
  rewrite (xcompare_eq_left (num_value a) (num_value b) (num_value c)).
  - exact Hbc.
  - destruct (xcompare (num_value a) (num_value b)) as [[]|];
      congruence.
Qed.

Lemma num_ltb_irrefl (a : number) : num_ltb a a = false.
Proof.
  destruct (num_ltb a a) eqn:H; trivial.
  now rewrite (num_ltb_asym a a H) in H.
Qed.

(** Two numbers that equal the same third one are not apart. *)
Lemma num_ltb_same_total (a b k : number) :
  num_eqb a k = true -> num_eqb b k = true -> num_ltb a b = false.
Proof.
  intros Ha Hb.
  rewrite num_eqb_sym in Hb.
  pose proof (num_eqb_trans a k b Ha Hb) as Hab.
  rewrite (num_eqb_ltb_left a b b Hab).
  apply num_ltb_irrefl.
Qed.

Lemma num_compare_int (a b : Z) :
  num_compare (NInt a) (NInt b) = Some (a ?= b).
Proof.
  unfold num_compare, num_value, xcompare, Qcompare; simpl.
  now rewrite !Z.mul_1_r.
Qed.

Lemma num_eqb_int (a b : Z) : num_eqb (NInt a) (NInt b) = (a =? b).
Proof.
  unfold num_eqb. rewrite num_compare_int, Z.eqb_compare.
  now destruct (a ?= b).
Qed.

Lemma num_ltb_int (a b : Z) : num_ltb (NInt a) (NInt b) = (a <? b).
Proof.
  unfold num_ltb. rewrite num_compare_int. unfold Z.ltb.
  now destruct (a ?= b).
Qed.

End NumberOrder.

(** ** The scoring function *)

Lemma bind_assoc {A B C : Type} (m : result A) (f : A -> result B)
    (g : B -> result C) :
  bind (bind m f) g = bind m (fun a => bind (f a) g).
Proof. now destruct m. Qed.

Lemma bind_ok {A : Type} (m : result A) : bind m Ok = m.
Proof. now destruct m. Qed.

(** On an int the membership test of line 53 is membership in the bench
    set. *)
Lemma in_int_list_bench (z : Z) :
  in_int_list (VNum (NInt z)) bench = Spec.on_bench z.
Proof.
  unfold in_int_list, bench, eq_int, Spec.on_bench; simpl.
  rewrite !num_eqb_int, orb_false_r. now rewrite !orb_assoc.
Qed.

Lemma py_mul_numbers (a b : number) :
  py_mul (VNum a) (VNum b) = bind (num_mul a b) (fun n => Ok (VNum n)).
Proof. reflexivity. Qed.

Lemma py_truediv_numbers (a b : number) :
  py_truediv (VNum a) (VNum b) = bind (num_truediv a b) (fun n => Ok (VNum n)).
Proof. reflexivity. Qed.

Lemma number_field_get (d : list (string * value)) (k : string)
    (default n : number) :
  Spec.number_field d k default = Some n ->
  get (VDict d) k (VNum default) = Ok (VNum n).
Proof.
  unfold Spec.number_field, get.
  destruct (lookup k d) as [[]|]; congruence.
Qed.

Lemma bool_field_get (d : list (string * value)) (k : string)
    (default b : bool) :
  Spec.bool_field d k default = Some b ->
  get (VDict d) k (VBool default) = Ok (VBool b).
Proof.
  unfold Spec.bool_field, get.
  destruct (lookup k d) as [[]|]; congruence.
Qed.

Lemma int_field_get (d : list (string * value)) (k : string) (default z : Z) :
  Spec.int_field d k default = Some z ->
  get (VDict d) k (VNum (NInt default)) = Ok (VNum (NInt z)).
Proof.
  unfold Spec.int_field, get.
  destruct (lookup k d) as [[| |[]| | |]|]; congruence.
Qed.

Lemma decode_fields (d : list (string * value)) (r : Spec.PlayerRecord) :
  Spec.decode d = Some r ->
  Spec.number_field d "pts" (NInt 0) = Some (Spec.points r) /\
  Spec.bool_field d "is_captain" false = Some (Spec.isCaptain r) /\
  Spec.number_field d "captain_multiplier" (NInt 1)
    = Some (Spec.captainMultiplier r) /\
  Spec.int_field d "court_position" 0 = Some (Spec.courtPosition r).
Proof.
  unfold Spec.decode.
  destruct (Spec.number_field d "pts" (NInt 0)); try discriminate.
  destruct (Spec.bool_field d "is_captain" false); try discriminate.
  destruct (Spec.number_field d "captain_multiplier" (NInt 1));
    try discriminate.
  destruct (Spec.int_field d "court_position" 0); try discriminate.
  intros H. injection H as <-. simpl. auto.
Qed.

(** The program, run on a JSON object that reads as a player record,
    computes the two steps of the specification on that record. *)
Lemma calculate_player_points_decoded
    (d : list (string * value)) (r : Spec.PlayerRecord) :
  Spec.decode d = Some r ->
  calculate_player_points (VDict d) =
    bind (Spec.captain_adjust r) (fun adjusted =>
      bind (Spec.bench_adjust r adjusted) (fun final => Ok (VNum final))).
Proof.
  intros Hd. destruct (decode_fields d r Hd) as (Hp & Hc & Hm & Hcp).
  unfold calculate_player_points, VInt in *.
  rewrite (number_field_get _ _ _ _ Hp), (bool_field_get _ _ _ _ Hc).
  rewrite (number_field_get _ _ _ _ Hm), (int_field_get _ _ _ _ Hcp).
  cbn [bind truthy]. rewrite in_int_list_bench.
  unfold Spec.captain_adjust, Spec.bench_adjust.
  destruct (Spec.isCaptain r).
  - rewrite py_mul_numbers, bind_assoc.
    destruct (num_mul (Spec.points r) (Spec.captainMultiplier r)) as [n|e];
      cbn [bind]; trivial.
    destruct (Spec.on_bench (Spec.courtPosition r)); cbn [bind]; trivial.
    rewrite py_truediv_numbers.
    now destruct (num_truediv n (NInt 2)).
  - cbn [bind].
    destruct (Spec.on_bench (Spec.courtPosition r)); cbn [bind]; trivial.
    rewrite py_truediv_numbers.
    now destruct (num_truediv (Spec.points r) (NInt 2)).
Qed.

(** C1: for every player record the scoring function computes its result
    in two ordered steps: the captain step multiplies the base points
    (0 when absent) by the captain multiplier (1 when absent) if the
    captain flag is true, and the bench step then halves the outcome of
    the first step if the court position is one of 7, 8, 9, 10.  The
    record with 10 points, captain flag, multiplier 3 and court position 9
    scores 15.0. *)
Theorem C1_score_two_ordered_steps :
  (forall (d : list (string * value)) (r : Spec.PlayerRecord),
      Spec.decode d = Some r ->
      calculate_player_points (VDict d) =
        bind (Spec.score r) (fun final => Ok (VNum final))) /\
  calculate_player_points (VDict Examples.captain_on_bench)
  = Ok (VFloat (double 15)).
Proof.
  split.
  - intros d r Hd. rewrite (calculate_player_points_decoded d r Hd).
    unfold Spec.score. now rewrite bind_assoc.
  - vm_compute. reflexivity.
Qed.

Lemma C1_score_two_ordered_steps_witness :
  Spec.decode Examples.captain_on_bench
    = Some (Spec.mkPlayerRecord (NInt 10) true (NInt 3) 9) /\
  calculate_player_points (VDict Examples.captain_on_bench) =
    bind (Spec.score (Spec.mkPlayerRecord (NInt 10) true (NInt 3) 9))
         (fun final => Ok (VNum final)).
Proof.
  split.
  - reflexivity.
  - apply (proj1 C1_score_two_ordered_steps). reflexivity.
Defined.

Lemma lookup_app (k : string) (d d' : list (string * value)) :
  lookup k (d ++ d') =
    match lookup k d with
    | Some v => Some v
    | None => lookup k d'
    end.
Proof.
  induction d as [|[k' v] d IH]; simpl; trivial.
  now destruct (String.eqb k k').
Qed.

(** A field read with its documented default does not see whether the
    default was filled in. *)
Lemma get_with_defaults (d : list (string * value)) (k : string) (v : value) :
  lookup k Spec.defaults = Some v ->
  get (VDict (Spec.with_defaults d)) k v = get (VDict d) k v.
Proof.
  intros Hk. unfold get, Spec.with_defaults. rewrite lookup_app, Hk.
  now destruct (lookup k d).
Qed.

(** C2: missing fields of a player record are resolved to the documented
    defaults and raise nothing: a record scores as the same record with
    points 0, captain flag false, multiplier 1 and court position 0 filled
    in where they are absent, the empty record reads as the record of
    these four defaults, and its score is 0, which equals 0.0. *)
Theorem C2_missing_fields_default :
  (forall d : list (string * value),
      calculate_player_points (VDict d) =
      calculate_player_points (VDict (Spec.with_defaults d))) /\
  Spec.decode [] = Some (Spec.mkPlayerRecord (NInt 0) false (NInt 1) 0) /\
  calculate_player_points (VDict []) = Ok (VInt 0) /\
  num_eqb (NInt 0) (NFloat (double 0)) = true.
Proof.
  split; [|repeat split].
  intros d. unfold calculate_player_points.
  now rewrite !get_with_defaults by reflexivity.
Qed.

Lemma on_bench_In (cp : Z) :
  Spec.on_bench cp = true <-> In cp [7; 8; 9; 10].
Proof.
  unfold Spec.on_bench. rewrite !orb_true_iff, !Z.eqb_eq. simpl.
  intuition congruence.
Qed.

(** C3: the halving applies exactly when the court position is one of
    7, 8, 9, 10: on the bench the outcome of the captain step is divided
    by 2, at every other position, the coach's 11 included, it is returned
    as it is.  The record with 10 points at court position 11 scores 10,
    which equals 10.0. *)
Theorem C3_halving_exactly_on_bench :
  (forall (d : list (string * value)) (r : Spec.PlayerRecord),
      Spec.decode d = Some r ->
      (In (Spec.courtPosition r) [7; 8; 9; 10] ->
       calculate_player_points (VDict d) =
         bind (Spec.captain_adjust r) (fun adjusted =>
           bind (num_truediv adjusted (NInt 2)) (fun half =>
             Ok (VNum half)))) /\
      (~ In (Spec.courtPosition r) [7; 8; 9; 10] ->
       calculate_player_points (VDict d) =
         bind (Spec.captain_adjust r) (fun adjusted => Ok (VNum adjusted)))) /\
  ~ In 11 [7; 8; 9; 10] /\
  calculate_player_points (VDict Examples.coach) = Ok (VInt 10) /\
  num_eqb (NInt 10) (NFloat (double 10)) = true.
Proof.
  split; [|repeat split].
  - intros d r Hd. rewrite (calculate_player_points_decoded d r Hd).
    unfold Spec.bench_adjust. split; intros Hcp.
    + apply on_bench_In in Hcp. now rewrite Hcp.
    + destruct (Spec.on_bench (Spec.courtPosition r)) eqn:Hb.
      * now apply on_bench_In in Hb.
      * reflexivity.
  - simpl. lia.
Qed.

Lemma C3_halving_exactly_on_bench_witness :
  Spec.decode Examples.coach
    = Some (Spec.mkPlayerRecord (NInt 10) false (NInt 1) 11) /\
  ~ In 11 [7; 8; 9; 10] /\
  calculate_player_points (VDict Examples.coach) = Ok (VNum (NInt 10)).
Proof.
  assert (Hd : Spec.decode Examples.coach
               = Some (Spec.mkPlayerRecord (NInt 10) false (NInt 1) 11))
    by reflexivity.
  assert (Hcp : ~ In 11 [7; 8; 9; 10]) by (simpl; lia).
  split; [exact Hd | split; [exact Hcp |]].
  exact (proj2 (proj1 C3_halving_exactly_on_bench Examples.coach _ Hd) Hcp).
Defined.

(** Records that agree on a field read the same value for it. *)
Lemma get_agree (d1 d2 : list (string * value)) (k : string) (v : value) :
  lookup k d1 = lookup k d2 ->
  get (VDict d1) k v = get (VDict d2) k v.
Proof. unfold get. now intros ->. Qed.

(** C8: the captain multiplier matters only under the captain flag: two
    player records that agree on every field other than the multiplier,
    and whose captain flag is false (or absent, or any value Python takes
    for false), score the same. *)
Theorem C8_multiplier_ignored_without_captain
    (d1 d2 : list (string * value)) :
  (forall k, k <> "captain_multiplier" -> lookup k d1 = lookup k d2) ->
  (forall flag, lookup "is_captain" d1 = Some flag -> truthy flag = false) ->
  calculate_player_points (VDict d1) = calculate_player_points (VDict d2).
Proof.
  intros Hsame Hflag. unfold calculate_player_points.
  rewrite <- (get_agree d1 d2 "pts") by (apply Hsame; discriminate).
  rewrite <- (get_agree d1 d2 "is_captain") by (apply Hsame; discriminate).
  rewrite <- (get_agree d1 d2 "court_position")
    by (apply Hsame; discriminate).
  destruct (get (VDict d1) "pts" (VInt 0)) as [base|e]; trivial.
  assert (Hc : exists flag,
             get (VDict d1) "is_captain" (VBool false) = Ok flag /\
             truthy flag = false).
  { unfold get. destruct (lookup "is_captain" d1) as [flag|] eqn:Hl.
    - exists flag. split; trivial. now apply Hflag.
    - now exists (VBool false). }
  destruct Hc as (flag & -> & Hfalse). cbn [bind]. rewrite Hfalse. unfold get.
  now destruct (lookup "captain_multiplier" d1),
               (lookup "captain_multiplier" d2).
Qed.

Lemma C8_multiplier_ignored_without_captain_witness :
  calculate_player_points (VDict (Examples.starter (VInt 2))) =
  calculate_player_points (VDict (Examples.starter (VFloat (double 7)))).
Proof.
  apply C8_multiplier_ignored_without_captain.
  - intros k Hk. unfold Examples.starter. simpl.
    apply String.eqb_neq in Hk. now rewrite Hk.
  - intros flag Hl. injection Hl as <-. reflexivity.
Defined.

(** C10: the captain multiplier is applied whatever the court position:
    under the captain flag the points are multiplied first, and only then
    does the court position decide on the halving; at the coach's
    position 11 the product is the score.  The captain with 10 points and
    multiplier 2 at court position 11 scores 20, which equals 20.0. *)
Theorem C10_captain_multiplier_at_any_position :
  (forall (d : list (string * value)) (r : Spec.PlayerRecord),
      Spec.decode d = Some r ->
      Spec.isCaptain r = true ->
      calculate_player_points (VDict d) =
        bind (num_mul (Spec.points r) (Spec.captainMultiplier r))
          (fun product =>
             bind (Spec.bench_adjust r product) (fun final =>
               Ok (VNum final))) /\
      (Spec.courtPosition r = 11 ->
       calculate_player_points (VDict d) =
         bind (num_mul (Spec.points r) (Spec.captainMultiplier r))
           (fun product => Ok (VNum product)))) /\
  calculate_player_points (VDict Examples.captain_coach) = Ok (VInt 20) /\
  num_eqb (NInt 20) (NFloat (double 20)) = true.
Proof.
  split; [|split; reflexivity].
  intros d r Hd Hc. rewrite (calculate_player_points_decoded d r Hd).
  unfold Spec.captain_adjust. rewrite Hc. split; trivial.
  intros Hcp. unfold Spec.bench_adjust. rewrite Hcp. reflexivity.
Qed.

Lemma C10_captain_multiplier_at_any_position_witness :
  Spec.decode Examples.captain_coach
    = Some (Spec.mkPlayerRecord (NInt 10) true (NInt 2) 11) /\
  calculate_player_points (VDict Examples.captain_coach) =
    bind (num_mul (NInt 10) (NInt 2)) (fun product => Ok (VNum product)).
Proof.
  assert (Hd : Spec.decode Examples.captain_coach
               = Some (Spec.mkPlayerRecord (NInt 10) true (NInt 2) 11))
    by reflexivity.
  split; [exact Hd |].
  exact (proj2 (proj1 C10_captain_multiplier_at_any_position
                  Examples.captain_coach _ Hd eq_refl) eq_refl).
Defined.

(** ** The team aggregator *)

Lemma lookup_some_truthy (k : string) (d : list (string * value)) (v : value) :
  lookup k d = Some v -> truthy (VDict d) = true.
Proof. now destruct d. Qed.

(** The guard of line 64 holds on every fetch result without a roster. *)
Lemma no_players_no_roster (data : value) :
  Spec.no_roster data -> no_players data = Ok true.
Proof.
  intros [ | v Hf | d Hd | d inner Hd Hp]; unfold no_players.
  - reflexivity.
  - now rewrite Hf.
  - destruct (truthy (VDict d)); trivial. simpl. now rewrite Hd.
  - rewrite (lookup_some_truthy _ _ _ Hd). simpl. rewrite Hd. simpl.
    now rewrite Hp.
Qed.

(** The guard lets a fetch result with a players list through. *)
Lemma no_players_roster (data : value) (roster : list value) :
  Spec.has_players_list data roster -> no_players data = Ok false.
Proof.
  intros (d & inner & -> & Hd & Hp). unfold no_players.
  rewrite (lookup_some_truthy _ _ _ Hd). simpl. rewrite Hd. simpl.
  now rewrite Hp.
Qed.

Lemma lacks_contains (k : string) (c : value) :
  Spec.lacks k c -> contains k c = Ok false.
Proof.
  intros [d Hd | l Hl | t Ht]; simpl.
  - now rewrite Hd.
  - f_equal. induction Hl as [|v l Hv _ IH]; simpl; trivial.
    rewrite IH, orb_false_r. destruct v; simpl; trivial.
    apply String.eqb_neq. congruence.
  - now rewrite Ht.
Qed.

Lemma contains_lacks (k : string) (c : value) :
  contains k c = Ok false -> Spec.lacks k c.
Proof.
  destruct c as [| b | n | t | l | d]; simpl; try discriminate; intros H.
  - constructor. congruence.
  - constructor. injection H as H.
    induction l as [|v l IH]; constructor.
    + simpl in H. apply orb_false_iff in H. destruct H as [H _].
      intros ->. simpl in H. now rewrite String.eqb_refl in H.
    + apply IH. simpl in H. now apply orb_false_iff in H.
  - constructor. now destruct (lookup k d).
Qed.

(** The guard of line 64 holds on the fetch results of
    [Spec.without_players], and on no other that lacks a players list
    and takes the aggregator to the zero-valued summary. *)
Lemma no_players_without_players (data : value) :
  Spec.without_players data -> no_players data = Ok true.
Proof.
  intros [v Hf | v Hl | d inner Hd Hl]; unfold no_players.
  - now rewrite Hf.
  - destruct (truthy v); trivial. cbn [negb].
    now rewrite (lacks_contains _ _ Hl).
  - rewrite (lookup_some_truthy _ _ _ Hd). simpl. rewrite Hd. simpl.
    now rewrite (lacks_contains _ _ Hl).
Qed.

Lemma no_players_true (data : value) :
  no_players data = Ok true -> Spec.without_players data.
Proof.
  unfold no_players.
  destruct (truthy data) eqn:Ht; cbn [negb]; [|now constructor 1].
  destruct (contains "data" data) as [[|]|e] eqn:Hc; cbn [bind negb];
    try discriminate; [|intros _; now apply Spec.without_data, contains_lacks].
  destruct data as [| b | n | t | l | d]; simpl; try discriminate.
  destruct (lookup "data" d) as [inner|] eqn:Hd; try discriminate.
  cbn [bind].
  destruct (contains "players" inner) as [[|]|e] eqn:Hp; cbn [bind negb];
    try discriminate.
  intros _. apply (Spec.without_players_member d inner Hd).
  now apply contains_lacks.
Qed.

(** C4, as the code has it: when the fetch result is absent or empty,
    or is a dict, list or str that does not contain "data", or is a dict
    whose "data" member is a dict, list or str that does not contain
    "players", the aggregator returns the summary with total 0, count 0
    and no players, and raises nothing; so it does for None and for the
    empty object.  These are all the fetch results without a players
    list on which it returns that summary. *)
Theorem C4_degrade_to_zero_without_roster :
  (forall (get_team_preview : Z -> string -> value)
          (team_id : Z) (team_name bearer_token : string),
      Spec.without_players (get_team_preview team_id bearer_token) ->
      calculate_team_points get_team_preview team_id team_name bearer_token
      = Ok (Spec.zero_summary team_id team_name)) /\
  (forall (get_team_preview : Z -> string -> value)
          (team_id : Z) (team_name bearer_token : string),
      (~ exists roster,
          Spec.has_players_list
            (get_team_preview team_id bearer_token) roster) ->
      calculate_team_points get_team_preview team_id team_name bearer_token
      = Ok (Spec.zero_summary team_id team_name) ->
      Spec.without_players (get_team_preview team_id bearer_token)) /\
  (forall (team_id : Z) (team_name bearer_token : string),
      calculate_team_points (fun _ _ => VNone) team_id team_name bearer_token
      = Ok (mkTeamScore team_id team_name (NInt 0) 0 (VList []))) /\
  (forall (team_id : Z) (team_name bearer_token : string),
      calculate_team_points (fun _ _ => VDict []) team_id team_name bearer_token
      = Ok (mkTeamScore team_id team_name (NInt 0) 0 (VList []))).
Proof.
  split; [|split; [|split; reflexivity]].
  - intros fetch id name token Hno. unfold calculate_team_points.
    now rewrite (no_players_without_players _ Hno).
  - intros fetch id name token Hno. unfold calculate_team_points.
    destruct (no_players (fetch id token)) as [[|]|e] eqn:Hg; cbn [bind];
      try discriminate; [intros _; now apply no_players_true |].
    intros Hz. exfalso. apply Hno. exists [].
    unfold no_players in Hg.
    destruct (truthy (fetch id token)); cbn [negb] in Hg; try discriminate.
    destruct (fetch id token) as [| b | n | t | l | d];
      simpl in Hg, Hz; try discriminate.
    destruct (lookup "data" d) as [inner|] eqn:Hd; try discriminate.
    cbn [bind] in Hz.
    destruct inner as [| b | n | t | l | inner]; simpl in Hz;
      try discriminate.
    destruct (lookup "players" inner) as [pl|] eqn:Hp; try discriminate.
    cbn [bind] in Hz.
    destruct (iterate pl) as [items|e]; cbn [bind] in Hz;
      try discriminate.
    destruct (sum_points (NInt 0) items) as [total|e]; cbn [bind] in Hz;
      try discriminate.
    destruct (len pl) as [count|e]; cbn [bind] in Hz; try discriminate.
    injection Hz as _ _ Hpl. subst pl.
    exists d, inner. repeat split; trivial.
Qed.

Lemma C4_degrade_to_zero_without_roster_witness :
  (Spec.without_players (VDict [("data", VStr "error")]) /\
   calculate_team_points (fun _ _ => VDict [("data", VStr "error")])
     1608378 "Memos" "token"
   = Ok (Spec.zero_summary 1608378 "Memos")) /\
  ((~ exists roster, Spec.has_players_list (VStr "Not found") roster) /\
   Spec.without_players (VStr "Not found")).
Proof.
  assert (Hno : Spec.without_players (VDict [("data", VStr "error")])).
  { apply (Spec.without_players_member _ (VStr "error")); [reflexivity |].
    constructor. reflexivity. }
  assert (Hnone : ~ exists roster,
                      Spec.has_players_list (VStr "Not found") roster).
  { intros (roster & d & inner & Hv & _). discriminate Hv. }
  split; split.
  - exact Hno.
  - exact (proj1 C4_degrade_to_zero_without_roster
             (fun _ _ => VDict [("data", VStr "error")])
             1608378 "Memos" "token" Hno).
  - exact Hnone.
  - exact (proj1 (proj2 C4_degrade_to_zero_without_roster)
             (fun _ _ => VStr "Not found") 1608378 "Memos" "token"
             Hnone eq_refl).
Defined.

(** C4, as the specification has it, fails: an answer whose "data" member
    is null, and one whose "players" member is null, carry no players
    list, and the aggregator raises TypeError on both instead of returning
    the zero-valued summary. *)
Lemma C4_unusable_answer_raises :
  (~ exists roster, Spec.has_players_list Examples.null_data roster) /\
  calculate_team_points (fun _ _ => Examples.null_data) 1608378 "Memos" "token"
  = Raise TypeError /\
  (~ exists roster, Spec.has_players_list Examples.null_players roster) /\
  calculate_team_points (fun _ _ => Examples.null_players)
    1608378 "Memos" "token"
  = Raise TypeError /\
  ~ (forall (get_team_preview : Z -> string -> value)
            (team_id : Z) (team_name bearer_token : string),
        (~ exists roster,
            Spec.has_players_list
              (get_team_preview team_id bearer_token) roster) ->
        calculate_team_points get_team_preview team_id team_name bearer_token
        = Ok (Spec.zero_summary team_id team_name)).
Proof.
  assert (Hnone : ~ exists roster,
                      Spec.has_players_list Examples.null_data roster).
  { intros (roster & d & inner & Hv & Hd & _).
    injection Hv as <-. discriminate Hd. }
  repeat split; trivial.
  - intros (roster & d & inner & Hv & Hd & Hp).
    injection Hv as <-. injection Hd as <-. discriminate Hp.
  - intros Hall.
    specialize (Hall (fun _ _ => Examples.null_data) 1608378 "Memos" "token"
                  Hnone).
    discriminate Hall.
Qed.

Lemma sum_left_raise (scores : list value) (e : exn) :
  fold_left (fun acc s => bind acc (fun total => add_to total s))
    scores (Raise e) = Raise e.
Proof. induction scores; simpl; trivial. Qed.

(** Scoring and adding player by player is the left-to-right sum of the
    scores. *)
Lemma sum_points_fold (roster scores : list value) :
  Forall2 (fun player pts => calculate_player_points player = Ok pts)
    roster scores ->
  forall total : number,
    sum_points total roster =
    fold_left (fun acc s => bind acc (fun t => add_to t s))
      scores (Ok total).
Proof.
  induction 1 as [|player pts roster scores Hp _ IH]; intros total; simpl.
  - reflexivity.
  - rewrite Hp. cbn [bind].
    destruct (add_to total pts) as [total'|e]; cbn [bind].
    + apply IH.
    + now rewrite sum_left_raise.
Qed.

Lemma calculate_team_points_roster
    (get_team_preview : Z -> string -> value)
    (team_id : Z) (team_name bearer_token : string)
    (roster scores : list value) :
  Spec.has_players_list (get_team_preview team_id bearer_token) roster ->
  Forall2 (fun player pts => calculate_player_points player = Ok pts)
    roster scores ->
  calculate_team_points get_team_preview team_id team_name bearer_token =
    bind (Spec.sum_left scores) (fun total =>
      Ok (mkTeamScore team_id team_name total
            (List.length roster) (VList roster))).
Proof.
  intros Hl Hs. unfold calculate_team_points.
  rewrite (no_players_roster _ _ Hl).
  destruct Hl as (d & inner & -> & Hd & Hp). simpl.
  rewrite Hd. simpl. rewrite Hp. simpl.
  now rewrite (sum_points_fold _ _ Hs).
Qed.

(** C5: for every fetch result that carries a players list whose players
    can be scored and summed, the aggregator returns the summary whose
    total is the sum of the players' scores, added in one pass from left
    to right in roster order, whose count is the length of the list and
    whose players are the list as fetched. *)
Theorem C5_total_is_left_to_right_sum
    (get_team_preview : Z -> string -> value)
    (team_id : Z) (team_name bearer_token : string)
    (roster scores : list value) (total : number) :
  Spec.has_players_list (get_team_preview team_id bearer_token) roster ->
  Forall2 (fun player pts => calculate_player_points player = Ok pts)
    roster scores ->
  Spec.sum_left scores = Ok total ->
  calculate_team_points get_team_preview team_id team_name bearer_token =
    Ok (mkTeamScore team_id team_name total
          (List.length roster) (VList roster)).
Proof.
  intros Hl Hs Ht.
  rewrite (calculate_team_points_roster _ _ _ _ _ _ Hl Hs).
  now rewrite Ht.
Qed.

Lemma example_doubles :
  int_truediv 5 2 = Ok Examples.float_2_5 /\
  int_truediv 13 2 = Ok Examples.float_6_5.
Proof. split; vm_compute; reflexivity. Qed.

Lemma C5_total_is_left_to_right_sum_witness :
  calculate_team_points (fun _ _ => Examples.roster_answer)
    1608378 "Memos" "token"
  = Ok (mkTeamScore 1608378 "Memos" (NFloat Examples.float_6_5) 3
          (VList Examples.roster)).
Proof.
  apply (C5_total_is_left_to_right_sum (fun _ _ => Examples.roster_answer)
           1608378 "Memos" "token" Examples.roster
           [VFloat (double 5); VFloat Examples.float_2_5;
            VFloat (SFopp (double 1))]).
  - exists [("data", VDict [("players", VList Examples.roster)])],
           [("players", VList Examples.roster)].
    repeat split.
  - repeat constructor.
  - vm_compute. reflexivity.
Defined.

(** Halving a float: the division by the int 2 is the IEEE division by
    the double 2.0. *)
Lemma num_truediv_float_2 (x : float) :
  num_truediv (NFloat x) (NInt 2) = Ok (NFloat (SFdiv prec emax x (double 2))).
Proof.
  assert (H2 : float_of_int 2 = Ok (double 2)) by (vm_compute; reflexivity).
  assert (Hz : is_zero (double 2) = false) by (vm_compute; reflexivity).
  cbn [num_truediv to_float bind]. rewrite H2. cbn [bind]. now rewrite Hz.
Qed.

(** Scoring a record of floats raises nothing and yields a float. *)
Lemma calculate_player_points_float (player : value) :
  Spec.float_player player ->
  exists f, calculate_player_points player = Ok (VFloat f).
Proof.
  intros (d & r & -> & Hd & (p & Hp) & (m & Hm)).
  rewrite (calculate_player_points_decoded d r Hd).
  unfold Spec.captain_adjust, Spec.bench_adjust. rewrite Hp, Hm.
  destruct (Spec.isCaptain r), (Spec.on_bench (Spec.courtPosition r));
    cbn [num_mul to_float bind]; rewrite ?num_truediv_float_2;
    cbn [bind]; eexists; reflexivity.
Qed.

Lemma sum_left_floats (fs : list float) (total : number) :
  (total = NInt 0 \/ exists f, total = NFloat f) ->
  exists f,
    fold_left (fun acc s => bind acc (fun t => add_to t s))
      (map VFloat fs) (Ok total)
    = Ok f.
Proof.
  revert total. induction fs as [|f fs IH]; intros total Ht; simpl.
  - eauto.
  - destruct Ht as [-> | (g & ->)]; cbn; apply IH; eauto.
Qed.

(** On a roster of float records the aggregator always returns, with the
    left-to-right sum of the scores for total. *)
Lemma calculate_team_points_returns
    (get_team_preview : Z -> string -> value)
    (team_id : Z) (team_name bearer_token : string) (roster : list value) :
  Spec.has_players_list (get_team_preview team_id bearer_token) roster ->
  Forall Spec.float_player roster ->
  exists scores total,
    Forall2 (fun player pts => calculate_player_points player = Ok pts)
      roster scores /\
    Spec.sum_left scores = Ok total /\
    calculate_team_points get_team_preview team_id team_name bearer_token =
      Ok (mkTeamScore team_id team_name total
            (List.length roster) (VList roster)).
Proof.
  intros Hl Hf.
  assert (Hs : exists fs,
             Forall2 (fun player pts => calculate_player_points player = Ok pts)
               roster (map VFloat fs)).
  { clear Hl. induction Hf as [|player roster' Hp _ IH'].
    - exists []. constructor.
    - destruct IH' as (fs & Hfs).
      destruct (calculate_player_points_float _ Hp) as (f & Hf').
      exists (f :: fs). now constructor. }
  destruct Hs as (fs & Hfs).
  destruct (sum_left_floats fs (NInt 0)) as (total & Ht); auto.
  exists (map VFloat fs), total. repeat split; trivial.
  rewrite (calculate_team_points_roster _ _ _ _ _ _ Hl Hfs).
  unfold Spec.sum_left. now rewrite Ht.
Qed.

(** ** Sorting in descending key order *)

Section ListSortFacts.

Context {A : Type}.
Variable key : A -> number.


Lemma insert_reverse_perm (x : A) (l : list A) :
  Permutation (x :: l) (insert_reverse key x l).
Proof.
  induction l as [|y l IH]; simpl.
  - apply Permutation_refl.
  - destruct (num_ltb (key x) (key y)).
    + eapply perm_trans; [apply perm_swap|]. now apply perm_skip.
    + apply Permutation_refl.
Qed.

Lemma sort_reverse_perm (l : list A) :
  Permutation l (sort_reverse key l).
Proof.
  induction l as [|x l IH]; simpl.
  - apply perm_nil.
  - eapply perm_trans; [apply perm_skip, IH|]. apply insert_reverse_perm.
Qed.

Lemma insert_reverse_hd (a x : A) (l : list A) :
  key_before key a x ->
  HdRel (key_before key) a l ->
  HdRel (key_before key) a (insert_reverse key x l).
Proof.
  intros Hax Hal. destruct l as [|y l]; simpl.
  - now constructor.
  - destruct (num_ltb (key x) (key y)).
    + constructor. now inversion Hal.
    + now constructor.
Qed.

Lemma insert_reverse_sorted (x : A) (l : list A) :
  Sorted (key_before key) l -> Sorted (key_before key) (insert_reverse key x l).
Proof.
  induction 1 as [|y l Hl IH Hy]; simpl.
  - repeat constructor.
  - destruct (num_ltb (key x) (key y)) eqn:Hxy.
    + constructor; trivial.
      apply insert_reverse_hd; trivial.
      now apply num_ltb_asym.
    + repeat constructor; trivial.
Qed.

Lemma sort_reverse_sorted (l : list A) :
  Sorted (key_before key) (sort_reverse key l).
Proof.
  induction l as [|x l IH]; simpl.
  - constructor.
  - now apply insert_reverse_sorted.
Qed.

(** A list already in order is left as it is. *)
Lemma sort_reverse_fixed (l : list A) :
  Sorted (key_before key) l -> sort_reverse key l = l.
Proof.
  induction 1 as [|x l Hl IH Hx]; simpl; trivial.
  rewrite IH. destruct Hx as [|y l Hxy]; simpl; trivial.
  unfold key_before in Hxy. now rewrite Hxy.
Qed.

Lemma sort_reverse_idempotent (l : list A) :
  sort_reverse key (sort_reverse key l) = sort_reverse key l.
Proof. apply sort_reverse_fixed, sort_reverse_sorted. Qed.

(** Insertion keeps the items of equal key in their order, the new item
    first. *)
Lemma insert_reverse_stable (k : number) (x : A) (l : list A) :
  filter (key_same key k) (insert_reverse key x l)
  = filter (key_same key k) (x :: l).
Proof.
  induction l as [|y l IH]; trivial.
  cbn [insert_reverse].
  destruct (num_ltb (key x) (key y)) eqn:Hxy; trivial.
  cbn [filter] in *. rewrite IH.
  destruct (key_same key k x) eqn:Hx, (key_same key k y) eqn:Hy; trivial.
  unfold key_same in Hx, Hy.
  now rewrite (num_ltb_same_total _ _ _ Hx Hy) in Hxy.
Qed.

Lemma sort_reverse_stable (k : number) (l : list A) :
  filter (key_same key k) (sort_reverse key l) = filter (key_same key k) l.
Proof.
  induction l as [|x l IH]; trivial.
  cbn [sort_reverse]. rewrite insert_reverse_stable.
  cbn [filter]. now rewrite IH.
Qed.

(** The outcome depends on the keys and on the order of the items, and on
    nothing else the items carry. *)
Lemma insert_reverse_map (g : A -> A) (x : A) (l : list A) :
  (forall a, key (g a) = key a) ->
  insert_reverse key (g x) (map g l) = map g (insert_reverse key x l).
Proof.
  intros Hg. induction l as [|y l IH]; simpl; trivial.
  rewrite !Hg. destruct (num_ltb (key x) (key y)); simpl; trivial.
  now rewrite IH.
Qed.

Lemma sort_reverse_map (g : A -> A) (l : list A) :
  (forall a, key (g a) = key a) ->
  sort_reverse key (map g l) = map g (sort_reverse key l).
Proof.
  intros Hg. induction l as [|x l IH]; simpl; trivial.
  now rewrite IH, insert_reverse_map.
Qed.

End ListSortFacts.

(** ** Keys that are numbers proper

    Without a NaN among the keys, [<] is a strict weak order and the
    order of a sorted list holds between any two of its items. *)

Lemma xcompare_lt_cotrans (x y z : xvalue) :
  xcompare x z = Some Lt -> y <> XNaN ->
  xcompare x y = Some Lt \/ xcompare y z = Some Lt.
Proof.
  destruct x as [|s|p], y as [|t|q], z as [|u|r]; simpl;
    try discriminate; try (destruct s); try (destruct t); try (destruct u);
    try discriminate; intros Hxz Hy; auto; try (now elim Hy).
  injection Hxz as Hxz. apply Qlt_alt in Hxz.
  destruct (Qlt_le_dec p q) as [Hpq|Hqp].
  - left. f_equal. now apply Qlt_alt.
  - right. f_equal. apply Qlt_alt. eapply Qle_lt_trans; eassumption.
Qed.

Lemma num_ltb_cotrans (a b c : number) :
  num_ltb a c = true -> is_nan b = false ->
  num_ltb a b = true \/ num_ltb b c = true.
Proof.
  unfold num_ltb, num_compare, is_nan. intros Hac Hb.
  destruct (xcompare_lt_cotrans (num_value a) (num_value b) (num_value c))
    as [H|H].
  - destruct (xcompare (num_value a) (num_value c)) as [[]|]; congruence.
  - intros Hn. now rewrite Hn in Hb.
  - left. now rewrite H.
  - right. now rewrite H.
Qed.

Lemma num_eqb_refl (a : number) : is_nan a = false -> num_eqb a a = true.
Proof.
  unfold num_eqb, num_compare, is_nan. intros Ha.
  rewrite xcompare_refl; trivial.
  intros Hn. now rewrite Hn in Ha.
Qed.

(** Numbers proper are equal or apart. *)
Lemma num_eqb_or_ltb (a b : number) :
  is_nan a = false -> is_nan b = false ->
  num_eqb a b = true \/ num_ltb a b = true \/ num_ltb b a = true.
Proof.
  intros Ha Hb. destruct (num_ltb a b) eqn:Hab; auto.
  destruct (num_ltb b a) eqn:Hba; auto. left.
  revert Ha Hb Hab Hba. unfold num_eqb, num_ltb, num_compare, is_nan.
  rewrite (xcompare_swap (num_value a) (num_value b)).
  destruct (num_value a) as [|s|p], (num_value b) as [|t|q]; simpl;
    try discriminate; try (destruct s); try (destruct t);
    try discriminate; trivial.
  destruct (p ?= q)%Q; simpl; congruence.
Qed.

Section TotalKeys.

Context {A : Type}.
Variable key : A -> number.


Lemma before_trans (a b c : A) :
  key_proper key b ->
  key_before key a b -> key_before key b c -> key_before key a c.
Proof.
  unfold key_before, key_proper. intros Hb Hab Hbc.
  destruct (num_ltb (key a) (key c)) eqn:Hac; trivial.
  destruct (num_ltb_cotrans _ _ _ Hac Hb); congruence.
Qed.

Lemma sorted_strongly (l : list A) :
  Forall (key_proper key) l ->
  Sorted (key_before key) l -> StronglySorted (key_before key) l.
Proof.
  intros Hp Hs. induction Hs as [|a l Hl IH Ha]; constructor.
  - apply IH. now inversion Hp.
  - inversion Hp as [|? ? _ Hpl]; subst.
    specialize (IH Hpl).
    destruct Ha as [|b l Hab]; constructor; trivial.
    inversion IH as [|? ? _ Hbl]; subst.
    inversion Hpl as [|? ? Hb _]; subst.
    eapply Forall_impl; [|exact Hbl].
    intros c Hbc. now apply before_trans with b.
Qed.

Lemma sort_reverse_strongly_sorted (l : list A) :
  Forall (key_proper key) l ->
  StronglySorted (key_before key) (sort_reverse key l).
Proof.
  intros Hp. apply sorted_strongly.
  - eapply Permutation_Forall; [apply sort_reverse_perm | exact Hp].
  - apply sort_reverse_sorted.
Qed.

(** Two lists in descending key order that list the items of every key
    in the same order are the same list. *)
Lemma sorted_stable_unique (l1 l2 : list A) :
  Forall (key_proper key) l1 -> Forall (key_proper key) l2 ->
  StronglySorted (key_before key) l1 -> StronglySorted (key_before key) l2 ->
  (forall k, filter (key_same key k) l1 = filter (key_same key k) l2) ->
  l1 = l2.
Proof.
  revert l2. induction l1 as [|a l1 IH]; intros l2 Hp1 Hp2 Hs1 Hs2 Hf.
  - destruct l2 as [|b l2]; trivial.
    specialize (Hf (key b)). cbn [filter] in Hf.
    change (key_same key (key b) b) with (num_eqb (key b) (key b)) in Hf.
    inversion Hp2 as [|? ? Hb _]; subst.
    now rewrite (num_eqb_refl _ Hb) in Hf.
  - inversion Hp1 as [|? ? Ha Hp1']; subst.
    inversion Hs1 as [|? ? Hs1' Hal1]; subst.
    destruct l2 as [|b l2].
    { specialize (Hf (key a)). cbn [filter] in Hf.
      change (key_same key (key a) a) with (num_eqb (key a) (key a)) in Hf.
      now rewrite (num_eqb_refl _ Ha) in Hf. }
    inversion Hp2 as [|? ? Hb Hp2']; subst.
    inversion Hs2 as [|? ? Hs2' Hbl2]; subst.
    assert (Hba : num_eqb (key b) (key a) = true).
    { destruct (num_eqb_or_ltb (key b) (key a) Hb Ha) as [H|[H|H]]; trivial.
      - (* b stands first in l2 though its key is smaller: a is in l2 *)
        exfalso. pose proof (Hf (key a)) as Hfa. cbn [filter] in Hfa.
        change (key_same key (key a) a) with (num_eqb (key a) (key a)) in Hfa.
        change (key_same key (key a) b) with (num_eqb (key b) (key a)) in Hfa.
        rewrite (num_eqb_refl _ Ha) in Hfa.
        assert (Hne : num_eqb (key b) (key a) = false).
        { destruct (num_eqb (key b) (key a)) eqn:He; trivial.
          rewrite (num_eqb_ltb_left _ _ _ He) in H.
          now rewrite num_ltb_irrefl in H. }
        rewrite Hne in Hfa.
        assert (Hin : In a (filter (key_same key (key a)) l2))
          by (rewrite <- Hfa; now left).
        apply filter_In in Hin. destruct Hin as [Hin _].
        rewrite Forall_forall in Hbl2. specialize (Hbl2 a Hin).
        unfold key_before in Hbl2. congruence.
      - (* a stands first in l1 though its key is smaller: b is in l1 *)
        exfalso. pose proof (Hf (key b)) as Hfb. cbn [filter] in Hfb.
        change (key_same key (key b) a) with (num_eqb (key a) (key b)) in Hfb.
        change (key_same key (key b) b) with (num_eqb (key b) (key b)) in Hfb.
        rewrite (num_eqb_refl _ Hb) in Hfb.
        assert (Hne : num_eqb (key a) (key b) = false).
        { destruct (num_eqb (key a) (key b)) eqn:He; trivial.
          rewrite (num_eqb_ltb_left _ _ _ He) in H.
          now rewrite num_ltb_irrefl in H. }
        rewrite Hne in Hfb.
        assert (Hin : In b (filter (key_same key (key b)) l1))
          by (rewrite Hfb; now left).
        apply filter_In in Hin. destruct Hin as [Hin _].
        rewrite Forall_forall in Hal1. specialize (Hal1 b Hin).
        unfold key_before in Hal1. congruence. }
    assert (Heq : a = b).
    { pose proof (Hf (key a)) as Hfa. cbn [filter] in Hfa.
      change (key_same key (key a) a) with (num_eqb (key a) (key a)) in Hfa.
      change (key_same key (key a) b) with (num_eqb (key b) (key a)) in Hfa.
      rewrite (num_eqb_refl _ Ha), Hba in Hfa. congruence. }
    subst b. f_equal. apply IH; trivial.
    intros k. specialize (Hf k). cbn [filter] in Hf.
    destruct (key_same key k a); congruence.
Qed.

(** Whatever sorts stably into descending key order computes
    [sort_reverse]: the outcome of the built-in does not depend on its
    algorithm. *)
Lemma stable_sort_unique (l l' : list A) :
  Forall (key_proper key) l ->
  Permutation l l' ->
  StronglySorted (key_before key) l' ->
  (forall k, filter (key_same key k) l' = filter (key_same key k) l) ->
  l' = sort_reverse key l.
Proof.
  intros Hp Hperm Hs Hf.
  apply sorted_stable_unique; trivial.
  - eapply Permutation_Forall; eassumption.
  - eapply Permutation_Forall; [apply sort_reverse_perm | exact Hp].
  - now apply sort_reverse_strongly_sorted.
  - intros k. rewrite Hf. symmetry. apply sort_reverse_stable.
Qed.

(** The model keeps the promise of the built-in, and every function
    that keeps it agrees with the model and is idempotent. *)
Lemma sort_reverse_contract : stable_descending_sort key (sort_reverse key).
Proof.
  intros l Hp. repeat split.
  - apply sort_reverse_perm.
  - now apply sort_reverse_strongly_sorted.
  - intros k. apply sort_reverse_stable.
Qed.

Lemma contract_unique (sorter : list A -> list A) (l : list A) :
  stable_descending_sort key sorter ->
  Forall (key_proper key) l ->
  sorter l = sort_reverse key l.
Proof.
  intros Hc Hp. destruct (Hc l Hp) as (Hperm & Hs & Hf).
  now apply stable_sort_unique.
Qed.

Lemma contract_idempotent (sorter : list A -> list A) (l : list A) :
  stable_descending_sort key sorter ->
  Forall (key_proper key) l ->
  sorter (sorter l) = sorter l.
Proof.
  intros Hc Hp.
  assert (Hp' : Forall (key_proper key) (sorter l)).
  { eapply Permutation_Forall; [apply (Hc l Hp) | exact Hp]. }
  rewrite (contract_unique sorter (sorter l) Hc Hp').
  rewrite (contract_unique sorter l Hc Hp).
  apply sort_reverse_idempotent.
Qed.

End TotalKeys.

(** ** The built-in sort

    What [list_sort_reverse] does to any keys, NaN included: it only
    reorders, it leaves no key directly before a greater one, and it
    leaves a list in which no key stands directly before a greater one
    as it is.  On keys without a NaN it is the stable descending sort. *)

Section BuiltinSortFacts.

Context {A : Type}.
Variable key : A -> number.

Local Open Scope nat_scope.

Lemma ascending_run_split (prev : A) (l run rest : list A) :
  ascending_run key prev l = (run, rest) -> l = run ++ rest.
Proof.
  revert prev run rest. induction l as [|x l IH]; simpl; intros prev run rest.
  - intros H. now injection H as <- <-.
  - destruct (key_lt key x prev).
    + intros H. now injection H as <- <-.
    + destruct (ascending_run key x l) as [run' rest'] eqn:Hr.
      intros H. injection H as <- <-. simpl. f_equal. eauto.
Qed.

Lemma descending_run_split (prev : A) (l run rest : list A) :
  descending_run key prev l = (run, rest) -> l = run ++ rest.
Proof.
  revert prev run rest. induction l as [|x l IH]; simpl; intros prev run rest.
  - intros H. now injection H as <- <-.
  - destruct (key_lt key x prev).
    + destruct (descending_run key x l) as [run' rest'] eqn:Hr.
      intros H. injection H as <- <-. simpl. f_equal. eauto.
    + intros H. now injection H as <- <-.
Qed.

Lemma first_run_perm (l run rest : list A) :
  first_run key l = (run, rest) -> Permutation l (run ++ rest).
Proof.
  unfold first_run. destruct l as [|x0 [|x1 l]].
  - intros H. now injection H as <- <-.
  - intros H. now injection H as <- <-.
  - destruct (key_lt key x1 x0).
    + destruct (descending_run key x1 l) as [run' rest'] eqn:Hr.
      intros H. injection H as <- <-.
      rewrite (descending_run_split _ _ _ _ Hr).
      change (x0 :: x1 :: run' ++ rest') with ((x0 :: x1 :: run') ++ rest').
      apply Permutation_app_tail, Permutation_rev.
    + destruct (ascending_run key x1 l) as [run' rest'] eqn:Hr.
      intros H. injection H as <- <-.
      now rewrite (ascending_run_split _ _ _ _ Hr).
Qed.

Lemma binary_insert_perm (a : list A) (pivot : A) :
  Permutation (pivot :: a) (binary_insert key a pivot).
Proof.
  unfold binary_insert.
  set (pos := bisect key (List.length a) pivot a 0 (List.length a)).
  rewrite <- (firstn_skipn pos a) at 1.
  apply Permutation_middle.
Qed.

Lemma binarysort_perm (rest run : list A) :
  Permutation (run ++ rest) (fold_left (binary_insert key) rest run).
Proof.
  revert run. induction rest as [|p rest IH]; intros run; simpl.
  - now rewrite app_nil_r.
  - eapply perm_trans; [|apply IH].
    eapply perm_trans; [apply Permutation_sym, Permutation_middle|].
    change (p :: run ++ rest) with ((p :: run) ++ rest).
    apply Permutation_app_tail, binary_insert_perm.
Qed.

Lemma sort_ascending_perm (l : list A) :
  Permutation l (sort_ascending key l).
Proof.
  unfold sort_ascending.
  destruct (first_run key l) as [run rest] eqn:Hr.
  eapply perm_trans; [apply (first_run_perm _ _ _ Hr)|].
  apply binarysort_perm.
Qed.

Lemma list_sort_reverse_perm (l : list A) :
  Permutation l (list_sort_reverse key l).
Proof.
  unfold list_sort_reverse.
  eapply perm_trans; [apply Permutation_rev|].
  eapply perm_trans; [apply sort_ascending_perm|].
  apply Permutation_rev.
Qed.


(** The binary search ends between an item that is not above the pivot
    and an item that is: both neighbours of the place found were
    compared with the pivot. *)
Lemma bisect_spec (pivot : A) (a : list A) (fuel l r pos : nat) :
  (r - l <= fuel)%nat -> (l <= r)%nat -> (r <= List.length a)%nat ->
  (l = O \/ exists x, nth_error a (l - 1) = Some x /\
                      key_lt key pivot x = false) ->
  (r = List.length a \/ exists y, nth_error a r = Some y /\
                                  key_lt key pivot y = true) ->
  bisect key fuel pivot a l r = pos ->
  (pos <= List.length a)%nat /\
  (pos = O \/ exists x, nth_error a (pos - 1) = Some x /\
                        key_lt key pivot x = false) /\
  (pos = List.length a \/ exists y, nth_error a pos = Some y /\
                                    key_lt key pivot y = true).
Proof.
  revert l r. induction fuel as [|fuel IH]; intros l r Hfuel Hlr Hr Pl Pr;
    cbn [bisect].
  - intros <-. assert (l = r) by lia. subst r. auto.
  - destruct (l <? r)%nat eqn:Hlt.
    + apply Nat.ltb_lt in Hlt.
      assert (Hp : (l <= l + (r - l) / 2 < r)%nat).
      { split; [lia|]. pose proof (Nat.div_lt (r - l) 2). lia. }
      set (p := (l + (r - l) / 2)%nat) in *.
      destruct (nth_error a p) as [x|] eqn:Hx.
      * destruct (key_lt key pivot x) eqn:Hc.
        -- apply IH; try lia; trivial. right. eauto.
        -- apply IH; try lia; trivial. right. exists x.
           replace (S p - 1)%nat with p by lia. auto.
      * apply nth_error_None in Hx. lia.
    + intros <-. apply Nat.ltb_ge in Hlt. assert (l = r) by lia. subst r.
      auto.
Qed.

Lemma skipn_nth_error (a : list A) (n : nat) (y : A) :
  nth_error a n = Some y -> skipn n a = y :: skipn (S n) a.
Proof.
  revert a. induction n as [|n IH]; intros [|z a]; simpl; try discriminate.
  - intros H. now injection H as <-.
  - intros H. now rewrite (IH a H).
Qed.

Lemma firstn_nth_error (a : list A) (n : nat) (x : A) :
  nth_error a n = Some x -> firstn (S n) a = firstn n a ++ [x].
Proof.
  revert a. induction n as [|n IH]; intros [|z a]; simpl; try discriminate.
  - intros H. now injection H as <-.
  - intros H. f_equal. now apply IH.
Qed.

(** Binary insertion puts the pivot behind an item that is not above it
    and before an item that is. *)
Lemma binary_insert_split (a : list A) (pivot : A) :
  exists l1 l2,
    a = l1 ++ l2 /\
    binary_insert key a pivot = l1 ++ pivot :: l2 /\
    (l1 = [] \/ exists l1' x, l1 = l1' ++ [x] /\
                              key_lt key pivot x = false) /\
    (l2 = [] \/ exists y l2', l2 = y :: l2' /\
                              key_lt key pivot y = true).
Proof.
  unfold binary_insert.
  set (pos := bisect key (List.length a) pivot a 0 (List.length a)).
  destruct (bisect_spec pivot a (List.length a) 0 (List.length a) pos)
    as (Hlen & Hleft & Hright); try lia; auto.
  exists (firstn pos a), (skipn pos a). repeat split.
  - symmetry. apply firstn_skipn.
  - destruct Hleft as [-> | (x & Hx & Hc)]; [now left|].
    destruct pos as [|n]; [now left|]. right.
    replace (S n - 1)%nat with n in Hx by lia.
    exists (firstn n a), x. split; trivial. now apply firstn_nth_error.
  - destruct Hright as [-> | (y & Hy & Hc)].
    + left. apply skipn_all.
    + right. exists y, (skipn (S pos) a). split; trivial.
      now apply skipn_nth_error.
Qed.


(** *** In any order of the keys: adjacent items, fixed points *)

Lemma sorted_insert_front (R : A -> A -> Prop) (x : A) (l2 : list A) :
  Sorted R l2 ->
  (l2 = [] \/ exists y l2', l2 = y :: l2' /\ R x y) ->
  Sorted R (x :: l2).
Proof.
  intros Hs [-> | (y & l2' & -> & Hxy)]; constructor; trivial;
    now constructor.
Qed.

Lemma sorted_insert_after (R : A -> A -> Prop) (x u : A) (l1 l2 : list A) :
  Sorted R ((l1 ++ [u]) ++ l2) ->
  R u x ->
  (l2 = [] \/ exists y l2', l2 = y :: l2' /\ R x y) ->
  Sorted R ((l1 ++ [u]) ++ x :: l2).
Proof.
  intros Hs Hux Hright. induction l1 as [|a l1 IH]; simpl in *.
  - inversion Hs as [|? ? Hs2 _]; subst. constructor.
    + now apply sorted_insert_front.
    + now constructor.
  - inversion Hs as [|? ? Hs' Hhd]; subst. constructor.
    + now apply IH.
    + destruct l1; simpl in *; inversion Hhd; now constructor.
Qed.

Lemma sorted_rev (R R' : A -> A -> Prop) (l : list A) :
  (forall a b, R a b -> R' b a) ->
  Sorted R l -> Sorted R' (rev l).
Proof.
  intros Hflip. induction 1 as [|a l Hl IH Hhd]; simpl.
  - constructor.
  - destruct Hhd as [|b l Hab]; simpl in *.
    + repeat constructor.
    + rewrite <- (app_nil_r ((rev l ++ [b]) ++ [a])), <- app_assoc.
      apply sorted_insert_after; auto.
      now rewrite app_nil_r.
Qed.

Lemma binary_insert_sorted (a : list A) (pivot : A) :
  Sorted (key_rising key) a ->
  Sorted (key_rising key) (binary_insert key a pivot).
Proof.
  intros Hs.
  destruct (binary_insert_split a pivot)
    as (l1 & l2 & -> & -> & Hleft & Hright).
  assert (Hr : l2 = [] \/
               exists y l2', l2 = y :: l2' /\ key_rising key pivot y).
  { destruct Hright as [-> | (y & l2' & -> & Hc)]; [now left|].
    right. exists y, l2'. split; trivial.
    unfold key_rising, key_lt in *. now apply num_ltb_asym. }
  destruct Hleft as [-> | (l1' & u & -> & Hc)].
  - now apply sorted_insert_front.
  - now apply sorted_insert_after.
Qed.

Lemma binarysort_sorted (rest run : list A) :
  Sorted (key_rising key) run ->
  Sorted (key_rising key) (fold_left (binary_insert key) rest run).
Proof.
  revert run. induction rest as [|p rest IH]; intros run Hs; simpl; trivial.
  now apply IH, binary_insert_sorted.
Qed.

Lemma ascending_run_sorted (prev : A) (l run rest : list A) :
  ascending_run key prev l = (run, rest) ->
  Sorted (key_rising key) (prev :: run).
Proof.
  revert prev run rest. induction l as [|x l IH]; simpl; intros prev run rest.
  - intros H. injection H as <- <-. repeat constructor.
  - destruct (key_lt key x prev) eqn:Hc.
    + intros H. injection H as <- <-. repeat constructor.
    + destruct (ascending_run key x l) as [run' rest'] eqn:Hr.
      intros H. injection H as <- <-.
      constructor; [eauto | now constructor].
Qed.

Lemma descending_run_sorted (prev : A) (l run rest : list A) :
  descending_run key prev l = (run, rest) ->
  Sorted (fun a b => key_lt key b a = true) (prev :: run).
Proof.
  revert prev run rest. induction l as [|x l IH]; simpl; intros prev run rest.
  - intros H. injection H as <- <-. repeat constructor.
  - destruct (key_lt key x prev) eqn:Hc.
    + destruct (descending_run key x l) as [run' rest'] eqn:Hr.
      intros H. injection H as <- <-.
      constructor; [eauto | now constructor].
    + intros H. injection H as <- <-. repeat constructor.
Qed.

Lemma first_run_sorted (l run rest : list A) :
  first_run key l = (run, rest) -> Sorted (key_rising key) run.
Proof.
  unfold first_run. destruct l as [|x0 [|x1 l]].
  - intros H. injection H as <- <-. constructor.
  - intros H. injection H as <- <-. repeat constructor.
  - destruct (key_lt key x1 x0) eqn:Hc.
    + destruct (descending_run key x1 l) as [run' rest'] eqn:Hr.
      intros H. injection H as <- <-.
      change (Sorted (key_rising key) (rev (x0 :: x1 :: run'))).
      apply (sorted_rev (fun a b => key_lt key b a = true)).
      * intros a b Hab. unfold key_rising, key_lt in *.
        now apply num_ltb_asym.
      * constructor; [exact (descending_run_sorted _ _ _ _ Hr)|].
        now constructor.
    + destruct (ascending_run key x1 l) as [run' rest'] eqn:Hr.
      intros H. injection H as <- <-.
      constructor; [exact (ascending_run_sorted _ _ _ _ Hr)|].
      now constructor.
Qed.

Lemma sort_ascending_sorted (l : list A) :
  Sorted (key_rising key) (sort_ascending key l).
Proof.
  unfold sort_ascending.
  destruct (first_run key l) as [run rest] eqn:Hr.
  apply binarysort_sorted. exact (first_run_sorted _ _ _ Hr).
Qed.

Lemma ascending_run_all (prev : A) (l : list A) :
  Sorted (key_rising key) (prev :: l) ->
  ascending_run key prev l = (l, []).
Proof.
  revert prev. induction l as [|x l IH]; intros prev Hs; simpl; trivial.
  inversion Hs as [|? ? Hs' Hhd]; subst.
  inversion Hhd as [|? ? Hc]; subst. unfold key_rising in Hc. rewrite Hc.
  now rewrite (IH x Hs').
Qed.

(** A list without a descent is one run: the sort leaves it alone. *)
Lemma sort_ascending_fixed (l : list A) :
  Sorted (key_rising key) l -> sort_ascending key l = l.
Proof.
  intros Hs. unfold sort_ascending, first_run.
  destruct l as [|x0 [|x1 l]]; trivial.
  inversion Hs as [|? ? Hs' Hhd]; subst.
  inversion Hhd as [|? ? Hc]; subst. unfold key_rising in Hc. rewrite Hc.
  now rewrite (ascending_run_all x1 l Hs').
Qed.

Lemma list_sort_reverse_sorted (l : list A) :
  Sorted (key_before key) (list_sort_reverse key l).
Proof.
  unfold list_sort_reverse.
  apply (sorted_rev (key_rising key)); [|apply sort_ascending_sorted].
  auto.
Qed.

Lemma list_sort_reverse_fixed (l : list A) :
  Sorted (key_before key) l -> list_sort_reverse key l = l.
Proof.
  intros Hs. unfold list_sort_reverse.
  rewrite sort_ascending_fixed; [apply rev_involutive|].
  apply (sorted_rev (key_before key)); auto.
Qed.



(** *** On keys that are numbers proper: the stable descending sort *)

Lemma strongly_sorted_app_inv (R : A -> A -> Prop) (l1 l2 : list A) :
  StronglySorted R (l1 ++ l2) ->
  StronglySorted R l1 /\ StronglySorted R l2 /\
  (forall x y, In x l1 -> In y l2 -> R x y).
Proof.
  induction l1 as [|a l1 IH]; simpl; intros Hs.
  - repeat split; trivial. constructor. intros x y [].
  - inversion Hs as [|? ? Hs' Hall]; subst.
    destruct (IH Hs') as (H1 & H2 & H12).
    rewrite Forall_app in Hall. destruct Hall as [Ha1 Ha2].
    repeat split; trivial.
    + now constructor.
    + intros x y [<- | Hx] Hy; [|now apply H12].
      rewrite Forall_forall in Ha2. now apply Ha2.
Qed.

Lemma strongly_sorted_app (R : A -> A -> Prop) (l1 l2 : list A) :
  StronglySorted R l1 -> StronglySorted R l2 ->
  (forall x y, In x l1 -> In y l2 -> R x y) ->
  StronglySorted R (l1 ++ l2).
Proof.
  induction 1 as [|a l1 Hs1 IH Hall]; simpl; intros Hs2 Hcross; trivial.
  constructor.
  - apply IH; trivial. intros x y Hx Hy. apply Hcross; simpl; auto.
  - rewrite Forall_app. split; trivial.
    rewrite Forall_forall. intros y Hy. apply Hcross; simpl; auto.
Qed.

Lemma strongly_sorted_rev (R R' : A -> A -> Prop) (l : list A) :
  (forall a b, R a b -> R' b a) ->
  StronglySorted R l -> StronglySorted R' (rev l).
Proof.
  intros Hflip. induction 1 as [|a l Hs IH Hall]; simpl.
  - constructor.
  - apply strongly_sorted_app; trivial.
    + repeat constructor.
    + intros x y Hx [<- | []]. apply Hflip.
      rewrite Forall_forall in Hall. apply Hall. now apply in_rev.
Qed.

Lemma sorted_strongly_gen (R : A -> A -> Prop) (P : A -> Prop) (l : list A) :
  (forall a b c, P b -> R a b -> R b c -> R a c) ->
  Forall P l -> Sorted R l -> StronglySorted R l.
Proof.
  intros Htrans Hp Hs. induction Hs as [|a l Hl IH Ha]; constructor.
  - apply IH. now inversion Hp.
  - inversion Hp as [|? ? _ Hpl]; subst. specialize (IH Hpl).
    destruct Ha as [|b l Hab]; constructor; trivial.
    inversion IH as [|? ? _ Hbl]; subst.
    inversion Hpl as [|? ? Hb _]; subst.
    eapply Forall_impl; [|exact Hbl].
    intros c Hbc. now apply Htrans with b.
Qed.

Lemma key_rising_trans (a b c : A) :
  key_proper key b ->
  key_rising key a b -> key_rising key b c -> key_rising key a c.
Proof.
  unfold key_rising, key_lt, key_proper. intros Hb Hab Hbc.
  destruct (num_ltb (key c) (key a)) eqn:Hca; trivial.
  destruct (num_ltb_cotrans _ _ _ Hca Hb); congruence.
Qed.

Lemma filter_one (k : number) (p : A) :
  filter (key_same key k) [p] = if key_same key k p then [p] else [].
Proof. reflexivity. Qed.

(** Among numbers proper, binary insertion keeps the list in ascending
    order and puts the pivot behind the items of its own key. *)
Lemma binary_insert_stable (a : list A) (pivot : A) :
  Forall (key_proper key) a ->
  StronglySorted (key_rising key) a ->
  StronglySorted (key_rising key) (binary_insert key a pivot) /\
  (forall k, filter (key_same key k) (binary_insert key a pivot) =
             filter (key_same key k) a ++ filter (key_same key k) [pivot]).
Proof.
  intros Hp Hs.
  destruct (binary_insert_split a pivot)
    as (l1 & l2 & -> & -> & Hleft & Hright).
  destruct (strongly_sorted_app_inv _ _ _ Hs) as (Hs1 & Hs2 & Hcross).
  rewrite Forall_app in Hp. destruct Hp as [Hp1 Hp2].
  assert (Hbelow : forall x, In x l1 -> key_lt key pivot x = false).
  { destruct Hleft as [-> | (l1' & u & -> & Hc)]; [intros x []|].
    intros x Hx. apply in_app_or in Hx. destruct Hx as [Hx | [<- | []]];
      trivial.
    destruct (strongly_sorted_app_inv _ _ _ Hs1) as (_ & _ & Hxu).
    specialize (Hxu x u Hx (or_introl eq_refl)).
    destruct (key_lt key pivot x) eqn:Hpx; trivial.
    rewrite Forall_app in Hp1. destruct Hp1 as [_ Hu].
    inversion Hu as [|? ? Hu' _]; subst.
    unfold key_rising, key_lt in *.
    destruct (num_ltb_cotrans _ _ _ Hpx Hu'); congruence. }
  assert (Habove : forall y, In y l2 -> key_lt key pivot y = true).
  { destruct Hright as [-> | (y0 & l2' & -> & Hc)]; [intros y []|].
    intros y [<- | Hy]; trivial.
    inversion Hs2 as [|? ? _ Hall]; subst.
    rewrite Forall_forall in Hall. specialize (Hall y Hy).
    inversion Hp2 as [|? ? _ Hp2']; subst.
    rewrite Forall_forall in Hp2'. specialize (Hp2' y Hy).
    unfold key_rising, key_lt in *.
    destruct (num_ltb_cotrans _ _ _ Hc Hp2'); congruence. }
  split.
  - apply strongly_sorted_app; trivial.
    + constructor; trivial. rewrite Forall_forall. intros y Hy.
      unfold key_rising, key_lt. apply num_ltb_asym. now apply Habove.
    + intros x y Hx [<- | Hy]; [now apply Hbelow | now apply Hcross].
  - intros k. rewrite !filter_app. cbn [filter].
    destruct (key_same key k pivot) eqn:Hk.
    + assert (Hnone : filter (key_same key k) l2 = []).
      { clear - Habove Hk. induction l2 as [|y l2 IH]; trivial. simpl.
        destruct (key_same key k y) eqn:Hy.
        - specialize (Habove y (or_introl eq_refl)).
          unfold key_same, key_lt in *.
          now rewrite (num_ltb_same_total _ _ _ Hk Hy) in Habove.
        - apply IH. intros z Hz. apply Habove. now right. }
      rewrite Hnone. now rewrite !app_nil_r.
    + now rewrite app_nil_r.
Qed.

Lemma binarysort_stable (rest run : list A) :
  Forall (key_proper key) run ->
  Forall (key_proper key) rest ->
  StronglySorted (key_rising key) run ->
  StronglySorted (key_rising key) (fold_left (binary_insert key) rest run) /\
  (forall k, filter (key_same key k) (fold_left (binary_insert key) rest run)
             = filter (key_same key k) (run ++ rest)).
Proof.
  revert run. induction rest as [|p rest IH]; intros run Hrun Hrest Hs; simpl.
  - split; trivial. intros k. now rewrite app_nil_r.
  - inversion Hrest as [|? ? Hp Hrest']; subst.
    destruct (binary_insert_stable run p Hrun Hs) as (Hs' & Hf).
    destruct (IH (binary_insert key run p)) as (Hs'' & Hf''); trivial.
    { eapply Permutation_Forall; [apply binary_insert_perm|].
      now constructor. }
    split; trivial. intros k.
    rewrite Hf'', !filter_app, Hf. cbn [filter].
    rewrite <- app_assoc. f_equal.
    now destruct (key_same key k p).
Qed.

(** A strictly descending run has no two items of the same key. *)
Lemma falling_filter_rev (k : number) (l : list A) :
  StronglySorted (fun a b => key_lt key b a = true) l ->
  filter (key_same key k) (rev l) = filter (key_same key k) l.
Proof.
  intros Hs. rewrite filter_rev.
  assert (H : filter (key_same key k) l = [] \/
              exists z, filter (key_same key k) l = [z]).
  { induction Hs as [|a l Hs IH Hall]; simpl; auto.
    destruct (key_same key k a) eqn:Ha; trivial. right. exists a.
    f_equal. clear IH Hs. induction l as [|y l IH]; trivial.
    inversion Hall as [|? ? Hya Hall']; subst. simpl.
    destruct (key_same key k y) eqn:Hy; [|now apply IH].
    unfold key_same, key_lt in *.
    now rewrite (num_ltb_same_total _ _ _ Hy Ha) in Hya. }
  destruct H as [-> | (z & ->)]; reflexivity.
Qed.

Lemma first_run_stable (l run rest : list A) :
  Forall (key_proper key) l ->
  first_run key l = (run, rest) ->
  StronglySorted (key_rising key) run /\
  (forall k, filter (key_same key k) (run ++ rest)
             = filter (key_same key k) l).
Proof.
  intros Hp Hr. split.
  - apply (sorted_strongly_gen _ (key_proper key)).
    + intros a b c Hb. now apply key_rising_trans.
    + pose proof (first_run_perm _ _ _ Hr) as Hperm.
      assert (Hall : Forall (key_proper key) (run ++ rest))
        by (eapply Permutation_Forall; eassumption).
      rewrite Forall_app in Hall. tauto.
    + exact (first_run_sorted _ _ _ Hr).
  - intros k. unfold first_run in Hr. destruct l as [|x0 [|x1 l]].
    + now injection Hr as <- <-.
    + now injection Hr as <- <-.
    + destruct (key_lt key x1 x0) eqn:Hc.
      * destruct (descending_run key x1 l) as [run' rest'] eqn:Hd.
        injection Hr as <- <-.
        rewrite (descending_run_split _ _ _ _ Hd).
        change (x0 :: x1 :: run' ++ rest')
          with ((x0 :: x1 :: run') ++ rest').
        change ((rev run' ++ [x1]) ++ [x0]) with (rev (x0 :: x1 :: run')).
        rewrite (filter_app _ (rev (x0 :: x1 :: run')) rest').
        rewrite (filter_app _ (x0 :: x1 :: run') rest'). f_equal.
        apply falling_filter_rev.
        apply Sorted_StronglySorted.
        -- intros a b c Hab Hbc. unfold key_lt in *.
           eapply num_ltb_trans; eassumption.
        -- constructor; [exact (descending_run_sorted _ _ _ _ Hd)|].
           now constructor.
      * destruct (ascending_run key x1 l) as [run' rest'] eqn:Ha.
        injection Hr as <- <-.
        now rewrite (ascending_run_split _ _ _ _ Ha).
Qed.

Lemma sort_ascending_stable (l : list A) :
  Forall (key_proper key) l ->
  StronglySorted (key_rising key) (sort_ascending key l) /\
  (forall k, filter (key_same key k) (sort_ascending key l)
             = filter (key_same key k) l).
Proof.
  intros Hp. unfold sort_ascending.
  destruct (first_run key l) as [run rest] eqn:Hr.
  destruct (first_run_stable _ _ _ Hp Hr) as (Hs & Hf).
  assert (Hall : Forall (key_proper key) (run ++ rest)).
  { eapply Permutation_Forall; [apply (first_run_perm _ _ _ Hr) | exact Hp]. }
  rewrite Forall_app in Hall. destruct Hall as [Hrun Hrest].
  destruct (binarysort_stable rest run Hrun Hrest Hs) as (Hs' & Hf').
  split; trivial. intros k. now rewrite Hf', Hf.
Qed.

(** On keys that are numbers proper the built-in returns the stable sort
    into descending key order. *)
Lemma list_sort_reverse_stable_sort (l : list A) :
  Forall (key_proper key) l ->
  list_sort_reverse key l = sort_reverse key l.
Proof.
  intros Hp. apply stable_sort_unique; trivial.
  - apply list_sort_reverse_perm.
  - unfold list_sort_reverse.
    apply (strongly_sorted_rev (key_rising key)); auto.
    apply sort_ascending_stable.
    eapply Permutation_Forall; [apply Permutation_rev | exact Hp].
  - intros k. unfold list_sort_reverse.
    destruct (sort_ascending_stable (rev l)) as (_ & Hf).
    { eapply Permutation_Forall; [apply Permutation_rev | exact Hp]. }
    now rewrite filter_rev, Hf, filter_rev, rev_involutive.
Qed.

End BuiltinSortFacts.

(** ** The ranking *)

(** C6, as the specification has it, fails when a total is NaN.  The
    summaries with the totals 1, NaN, 2 are left as they are, the total
    1 before the total 2, and of the summaries with the totals
    1, 1, NaN, 1, 1, 1, 2 those with the total 1 do not keep their order:
    the third of them comes last.  A team whose players score 1e400 and
    -1e400 has such a total. *)
Lemma C6_nan_total_breaks_ranking :
  sort_team_scores Examples.nan_between = Examples.nan_between /\
  ~ StronglySorted Spec.not_below (sort_team_scores Examples.nan_between) /\
  map team_id (sort_team_scores Examples.nan_among_ties)
  = [1; 2; 6; 0; 3; 4; 5] /\
  Spec.with_total (NInt 1) (sort_team_scores Examples.nan_among_ties)
  <> Spec.with_total (NInt 1) Examples.nan_among_ties /\
  rank_teams Examples.nan_preview Examples.league "token"
  = Ok [Examples.fetched 1 "A" 1;
        mkTeamScore 2 "B" (NFloat S754_nan) 2 Examples.overflowing;
        Examples.fetched 3 "C" 2] /\
  ~ (forall xs : list TeamScore,
        StronglySorted Spec.not_below (sort_team_scores xs) /\
        forall k : number,
          Spec.with_total k (sort_team_scores xs) = Spec.with_total k xs).
Proof.
  assert (Hfix : sort_team_scores Examples.nan_between
                 = Examples.nan_between) by (vm_compute; reflexivity).
  assert (Hnot : ~ StronglySorted Spec.not_below
                     (sort_team_scores Examples.nan_between)).
  { rewrite Hfix. intros Hs. inversion Hs as [|t l _ Hall]; subst.
    inversion Hall as [|t' l' _ Hall']; subst.
    inversion Hall' as [|t'' l'' Hb _]; subst.
    vm_compute in Hb. discriminate Hb. }
  split; [exact Hfix | split; [exact Hnot | split; [|split; [|split]]]].
  - vm_compute. reflexivity.
  - vm_compute. discriminate.
  - vm_compute. reflexivity.
  - intros Hall. exact (Hnot (proj1 (Hall Examples.nan_between))).
Qed.

(** C6, as the code has it: for every sequence of summaries none of
    whose totals is NaN, the ranking orders the summaries by total in
    descending order, no summary standing before one with a greater
    total, and the sort is stable: the summaries of equal total keep the
    order they had in the input, and nothing but the totals and that
    order decides the outcome.  The input (A,10), (B,20), (C,10) is
    ranked B, A, C. *)
Theorem C6_ranking_descending_and_stable :
  (forall xs : list TeamScore,
      Forall (key_proper total_pts) xs ->
      StronglySorted Spec.not_below (sort_team_scores xs) /\
      (forall k : number,
          Spec.with_total k (sort_team_scores xs) = Spec.with_total k xs) /\
      (forall g : TeamScore -> TeamScore,
          (forall t, total_pts (g t) = total_pts t) ->
          sort_team_scores (map g xs) = map g (sort_team_scores xs))) /\
  sort_team_scores [Examples.team_A; Examples.team_B; Examples.team_C]
  = [Examples.team_B; Examples.team_A; Examples.team_C] /\
  rank_teams Examples.preview Examples.league "token"
  = Ok [Examples.fetched 2 "B" 20; Examples.fetched 1 "A" 10;
        Examples.fetched 3 "C" 10].
Proof.
  split; [|split; reflexivity].
  intros xs Hp. unfold sort_team_scores.
  rewrite (list_sort_reverse_stable_sort total_pts xs Hp).
  split; [|split].
  - exact (sort_reverse_strongly_sorted total_pts xs Hp).
  - intros k. exact (sort_reverse_stable total_pts k xs).
  - intros g Hg.
    rewrite (list_sort_reverse_stable_sort total_pts (map g xs)).
    + exact (sort_reverse_map total_pts g xs Hg).
    + apply Forall_map. revert Hp. apply Forall_impl.
      intros t. unfold key_proper. now rewrite Hg.
Qed.

Lemma C6_ranking_descending_and_stable_witness :
  Forall (key_proper total_pts)
    [Examples.team_A; Examples.team_B; Examples.team_C] /\
  StronglySorted Spec.not_below
    (sort_team_scores [Examples.team_A; Examples.team_B; Examples.team_C]) /\
  sort_team_scores (map Examples.anonymous
                      [Examples.team_A; Examples.team_B; Examples.team_C])
  = map Examples.anonymous
      (sort_team_scores [Examples.team_A; Examples.team_B; Examples.team_C]).
Proof.
  assert (Hp : Forall (key_proper total_pts)
                 [Examples.team_A; Examples.team_B; Examples.team_C])
    by (repeat constructor).
  split; [exact Hp | split].
  - exact (proj1 (proj1 C6_ranking_descending_and_stable _ Hp)).
  - apply (proj2 (proj2 (proj1 C6_ranking_descending_and_stable _ Hp))
             Examples.anonymous).
    intros t. reflexivity.
Defined.


Lemma collect_team_scores_ranked
    (get_team_preview : Z -> string -> value)
    (teams : list (string * Z)) (bearer_token : string)
    (ranked : list TeamScore) :
  rank_teams get_team_preview teams bearer_token = Ok ranked ->
  exists team_scores,
    collect_team_scores get_team_preview teams bearer_token = Ok team_scores /\
    ranked = sort_team_scores team_scores.
Proof.
  unfold rank_teams.
  destruct (collect_team_scores get_team_preview teams bearer_token)
    as [team_scores|e]; simpl; intros H; [|discriminate].
  exists team_scores. split; congruence.
Qed.

(** C9: the ranking only reorders: its output is a permutation of its
    input, so every summary of the output is a summary of the input with
    its id, name, total, count and players as they were constructed; the
    list [rank_teams] returns is a permutation of the summaries the
    aggregator built. *)
Theorem C9_ranking_only_reorders :
  (forall xs : list TeamScore, Permutation xs (sort_team_scores xs)) /\
  (forall (xs : list TeamScore) (t : TeamScore),
      In t (sort_team_scores xs) <-> In t xs) /\
  (forall (get_team_preview : Z -> string -> value)
          (teams : list (string * Z)) (bearer_token : string)
          (ranked : list TeamScore),
      rank_teams get_team_preview teams bearer_token = Ok ranked ->
      exists team_scores,
        collect_team_scores get_team_preview teams bearer_token
        = Ok team_scores /\
        Permutation team_scores ranked).
Proof.
  split; [|split].
  - intros xs. exact (list_sort_reverse_perm total_pts xs).
  - intros xs t. split; apply Permutation_in.
    + apply Permutation_sym. exact (list_sort_reverse_perm total_pts xs).
    + exact (list_sort_reverse_perm total_pts xs).
  - intros fetch teams token ranked Hr.
    destruct (collect_team_scores_ranked _ _ _ _ Hr) as (scores & Hc & ->).
    exists scores. split; trivial.
    exact (list_sort_reverse_perm total_pts scores).
Qed.

Lemma C9_ranking_only_reorders_witness :
  exists team_scores,
    collect_team_scores Examples.preview Examples.league "token"
    = Ok team_scores /\
    Permutation team_scores
      [Examples.fetched 2 "B" 20; Examples.fetched 1 "A" 10;
       Examples.fetched 3 "C" 10].
Proof.
  apply (proj2 (proj2 C9_ranking_only_reorders)
           Examples.preview Examples.league "token").
  reflexivity.
Defined.

(** * Further properties of the program *)

(** ** Scoring: what is read, what is returned, what is raised *)

(** X1: the score of a player depends on the four scoring fields only:
    records that agree on "pts", "is_captain", "captain_multiplier" and
    "court_position" score the same, whatever else they carry. *)
Theorem X1_score_reads_four_fields (d1 d2 : list (string * value)) :
  (forall k,
      In k ["pts"; "is_captain"; "captain_multiplier"; "court_position"] ->
      lookup k d1 = lookup k d2) ->
  calculate_player_points (VDict d1) = calculate_player_points (VDict d2).
Proof.
  intros Hsame. unfold calculate_player_points.
  rewrite (get_agree d1 d2 "pts") by (apply Hsame; simpl; auto).
  rewrite (get_agree d1 d2 "is_captain") by (apply Hsame; simpl; auto).
  rewrite (get_agree d1 d2 "captain_multiplier")
    by (apply Hsame; simpl; auto).
  rewrite (get_agree d1 d2 "court_position") by (apply Hsame; simpl; auto).
  reflexivity.
Qed.

Lemma X1_score_reads_four_fields_witness :
  calculate_player_points
    (VDict (("first_name", VStr "Nikola") :: Examples.captain_on_bench)) =
  calculate_player_points
    (VDict (Examples.captain_on_bench ++ [("quotation", VInt 15)])).
Proof.
  apply X1_score_reads_four_fields.
  intros k [<- | [<- | [<- | [<- | []]]]]; reflexivity.
Defined.

(** X2: a player who is neither captain nor on the bench scores the
    stored "pts" value itself: it is returned as it is, negative,
    fractional or of whatever type, without clamping or conversion. *)
Theorem X2_plain_player_keeps_points
    (d : list (string * value)) (pts : value) :
  lookup "pts" d = Some pts ->
  (forall flag, lookup "is_captain" d = Some flag -> truthy flag = false) ->
  (forall cp, lookup "court_position" d = Some cp ->
              in_int_list cp bench = false) ->
  calculate_player_points (VDict d) = Ok pts.
Proof.
  intros Hp Hc Hb. unfold calculate_player_points, get. rewrite Hp.
  cbn [bind].
  destruct (lookup "is_captain" d) as [flag|] eqn:Hflag; cbn [bind].
  - rewrite (Hc flag eq_refl).
    destruct (lookup "captain_multiplier" d); cbn [bind];
      destruct (lookup "court_position" d) as [cp|] eqn:Hcp; cbn [bind];
      try rewrite (Hb cp eq_refl); reflexivity.
  - destruct (lookup "captain_multiplier" d); cbn [bind truthy];
      destruct (lookup "court_position" d) as [cp|] eqn:Hcp; cbn [bind];
      try rewrite (Hb cp eq_refl); reflexivity.
Qed.

Lemma X2_plain_player_keeps_points_witness :
  calculate_player_points
    (VDict [("pts", VFloat (SFopp Examples.float_2_5));
            ("court_position", VNone)])
  = Ok (VFloat (SFopp Examples.float_2_5)).
Proof.
  apply X2_plain_player_keeps_points.
  - reflexivity.
  - intros flag H. discriminate H.
  - intros cp H. injection H as <-. reflexivity.
Defined.







Lemma num_mul_ok_or_overflow (a b : number) :
  (exists n, num_mul a b = Ok n) \/ num_mul a b = Raise OverflowError.
Proof.
  destruct a as [x | x], b as [y | y]; cbn [num_mul to_float bind]; eauto;
    unfold float_of_int.
  - destruct (double x); cbn [bind]; eauto.
  - destruct (double y); cbn [bind]; eauto.
Qed.

Lemma num_halve_ok_or_overflow (a : number) :
  (exists n, num_truediv a (NInt 2) = Ok n) \/
  num_truediv a (NInt 2) = Raise OverflowError.
Proof.
  destruct a as [x | x].
  - cbn [num_truediv]. unfold int_truediv.
    destruct x as [| p | p]; cbn [bind]; eauto;
      match goal with
      | |- context [SFdiv ?p ?e ?u ?v] => destruct (SFdiv p e u v)
      end; cbn [bind]; eauto.
  - rewrite num_truediv_float_2. eauto.
Qed.

(** X3: scoring a record whose fields have the types of the data model
    returns a number or raises OverflowError (an int beyond the range of
    a double met a float, or was halved); it raises nothing else.  The
    OverflowError does occur: halving the int 2^1025 raises it. *)
Theorem X3_typed_score_number_or_overflow :
  (forall (d : list (string * value)) (r : Spec.PlayerRecord),
      Spec.decode d = Some r ->
      (exists n, calculate_player_points (VDict d) = Ok (VNum n)) \/
      calculate_player_points (VDict d) = Raise OverflowError) /\
  calculate_player_points
    (VDict [("pts", VInt (2 ^ 1025)); ("court_position", VInt 7)])
  = Raise OverflowError.
Proof.
  split; [|vm_compute; reflexivity].
  intros d r Hd. rewrite (calculate_player_points_decoded d r Hd).
  unfold Spec.captain_adjust, Spec.bench_adjust.
  assert (Hadj : (exists n, (if Spec.isCaptain r
                             then num_mul (Spec.points r)
                                    (Spec.captainMultiplier r)
                             else Ok (Spec.points r)) = Ok n) \/
                 (if Spec.isCaptain r
                  then num_mul (Spec.points r) (Spec.captainMultiplier r)
                  else Ok (Spec.points r)) = Raise OverflowError).
  { destruct (Spec.isCaptain r); [apply num_mul_ok_or_overflow | eauto]. }
  destruct Hadj as [(n & ->) | ->]; cbn [bind]; auto.
  destruct (Spec.on_bench (Spec.courtPosition r)); cbn [bind]; eauto.
  destruct (num_halve_ok_or_overflow n) as [(h & ->) | ->]; cbn [bind]; eauto.
Qed.

Lemma X3_typed_score_number_or_overflow_witness :
  (exists n, calculate_player_points (VDict Examples.captain_on_bench)
             = Ok (VNum n)) \/
  calculate_player_points (VDict Examples.captain_on_bench)
  = Raise OverflowError.
Proof.
  apply (proj1 X3_typed_score_number_or_overflow Examples.captain_on_bench
           (Spec.mkPlayerRecord (NInt 10) true (NInt 3) 9)).
  reflexivity.
Defined.

(** ** The aggregator: what it reads, keeps and raises *)

(** The aggregator on an answer with a "players" member, of whatever
    type the member is. *)
Lemma calculate_team_points_players
    (get_team_preview : Z -> string -> value)
    (team_id : Z) (team_name bearer_token : string)
    (d inner : list (string * value)) (pl : value) :
  get_team_preview team_id bearer_token = VDict d ->
  lookup "data" d = Some (VDict inner) ->
  lookup "players" inner = Some pl ->
  calculate_team_points get_team_preview team_id team_name bearer_token =
    bind (iterate pl) (fun items =>
      bind (sum_points (NInt 0) items) (fun total =>
        bind (len pl) (fun count =>
          Ok (mkTeamScore team_id team_name total count pl)))).
Proof.
  intros Hdata Hd Hp. unfold calculate_team_points, no_players.
  rewrite Hdata, (lookup_some_truthy _ _ _ Hd). simpl.
  rewrite Hd. simpl. rewrite Hp. reflexivity.
Qed.

(** X4: of the answer of the fetcher the aggregator reads the "players"
    member of the "data" member and nothing else: two answers carrying
    the same players give the same summary (or raise the same). *)
Theorem X4_only_players_member_read
    (fetch1 fetch2 : Z -> string -> value)
    (team_id : Z) (team_name token1 token2 : string)
    (d1 inner1 d2 inner2 : list (string * value)) (pl : value) :
  fetch1 team_id token1 = VDict d1 ->
  lookup "data" d1 = Some (VDict inner1) ->
  lookup "players" inner1 = Some pl ->
  fetch2 team_id token2 = VDict d2 ->
  lookup "data" d2 = Some (VDict inner2) ->
  lookup "players" inner2 = Some pl ->
  calculate_team_points fetch1 team_id team_name token1 =
  calculate_team_points fetch2 team_id team_name token2.
Proof.
  intros H1 Hd1 Hp1 H2 Hd2 Hp2.
  rewrite (calculate_team_points_players _ _ _ _ _ _ _ H1 Hd1 Hp1).
  now rewrite (calculate_team_points_players _ _ _ _ _ _ _ H2 Hd2 Hp2).
Qed.

Lemma X4_only_players_member_read_witness :
  calculate_team_points (fun _ _ => Examples.roster_answer) 7 "T" "a" =
  calculate_team_points
    (fun _ _ =>
       VDict [("status", VStr "ok");
              ("data", VDict [("id", VInt 7);
                              ("players", VList Examples.roster)])])
    7 "T" "b".
Proof.
  eapply X4_only_players_member_read; reflexivity.
Defined.

Lemma length_chars (s : string) : List.length (chars s) = String.length s.
Proof. induction s; simpl; congruence. Qed.

Lemma len_iterate (pl : value) (items : list value) :
  iterate pl = Ok items -> len pl = Ok (List.length items).
Proof.
  destruct pl; simpl; intros H; try discriminate; injection H as <-.
  - now rewrite length_chars.
  - reflexivity.
  - now rewrite length_map.
Qed.

Lemma calculate_team_points_invariant
    (get_team_preview : Z -> string -> value)
    (id : Z) (name bearer_token : string) (ts : TeamScore) :
  calculate_team_points get_team_preview id name bearer_token = Ok ts ->
  team_id ts = id /\
  team_name ts = name /\
  exists items,
    iterate (players ts) = Ok items /\
    sum_points (NInt 0) items = Ok (total_pts ts) /\
    player_count ts = List.length items.
Proof.
  unfold calculate_team_points.
  destruct (no_players (get_team_preview id bearer_token))
    as [[|]|e]; cbn [bind]; try discriminate.
  - intros H. injection H as <-. repeat split. exists []. repeat split.
  - destruct (subscript (get_team_preview id bearer_token) "data")
      as [inner|e]; cbn [bind]; try discriminate.
    destruct (subscript inner "players") as [pl|e]; cbn [bind];
      try discriminate.
    destruct (iterate pl) as [items|e] eqn:Hit; cbn [bind];
      try discriminate.
    destruct (sum_points (NInt 0) items) as [total|e] eqn:Hsum;
      cbn [bind]; try discriminate.
    rewrite (len_iterate _ _ Hit). cbn [bind].
    intros H. injection H as <-. repeat split. exists items. auto.
Qed.

(** X5: every summary the aggregator returns, the zero-valued one
    included, carries the id and the name it was called with, a total
    that is the left-to-right sum of the scores of its players, and a
    count that is the number of its players. *)
Theorem X5_summary_invariant
    (get_team_preview : Z -> string -> value)
    (id : Z) (name bearer_token : string) (ts : TeamScore) :
  calculate_team_points get_team_preview id name bearer_token = Ok ts ->
  team_id ts = id /\
  team_name ts = name /\
  exists items,
    iterate (players ts) = Ok items /\
    sum_points (NInt 0) items = Ok (total_pts ts) /\
    player_count ts = List.length items.
Proof. apply calculate_team_points_invariant. Qed.

Lemma X5_summary_invariant_witness :
  exists items,
    iterate (VList Examples.roster) = Ok items /\
    sum_points (NInt 0) items = Ok (NFloat Examples.float_6_5) /\
    3%nat = List.length items.
Proof.
  apply (X5_summary_invariant (fun _ _ => Examples.roster_answer)
           1608378 "Memos" "token"
           (mkTeamScore 1608378 "Memos" (NFloat Examples.float_6_5) 3
              (VList Examples.roster))).
  vm_compute. reflexivity.
Defined.

Lemma sum_points_app (total : number) (l1 l2 : list value) :
  sum_points total (l1 ++ l2) =
  bind (sum_points total l1) (fun total' => sum_points total' l2).
Proof.
  revert total. induction l1 as [|p l1 IH]; intros total; simpl; trivial.
  destruct (calculate_player_points p) as [pts|e]; cbn [bind]; trivial.
  destruct (add_to total pts) as [total'|e]; cbn [bind]; trivial.
Qed.

Lemma sum_points_scored (good scores : list value) (total : number) :
  Forall2 (fun player pts => calculate_player_points player = Ok pts)
    good scores ->
  Spec.sum_left scores = Ok total ->
  sum_points (NInt 0) good = Ok total.
Proof.
  intros Hs Ht. now rewrite (sum_points_fold _ _ Hs).
Qed.

Lemma calculate_team_points_sum
    (get_team_preview : Z -> string -> value)
    (team_id : Z) (team_name bearer_token : string) (roster : list value) :
  Spec.has_players_list (get_team_preview team_id bearer_token) roster ->
  calculate_team_points get_team_preview team_id team_name bearer_token =
    bind (sum_points (NInt 0) roster) (fun total =>
      Ok (mkTeamScore team_id team_name total
            (List.length roster) (VList roster))).
Proof.
  intros (d & inner & Hdata & Hd & Hp).
  rewrite (calculate_team_points_players _ _ _ _ _ _ _ Hdata Hd Hp).
  simpl. now destruct (sum_points (NInt 0) roster).
Qed.

(** X6: the aggregator raises the first error met along the roster: when
    the players before some player score and sum, and scoring that player
    raises, the aggregator raises the same error and returns no summary;
    so a roster entry that is not an object raises AttributeError. *)
Theorem X6_first_scoring_error_raised
    (get_team_preview : Z -> string -> value)
    (team_id : Z) (team_name bearer_token : string)
    (good rest scores : list value) (bad : value) (total : number)
    (e : exn) :
  Spec.has_players_list (get_team_preview team_id bearer_token)
    (good ++ bad :: rest) ->
  Forall2 (fun player pts => calculate_player_points player = Ok pts)
    good scores ->
  Spec.sum_left scores = Ok total ->
  calculate_player_points bad = Raise e ->
  calculate_team_points get_team_preview team_id team_name bearer_token
  = Raise e.
Proof.
  intros Hl Hs Ht Hbad. rewrite (calculate_team_points_sum _ _ _ _ _ Hl).
  rewrite sum_points_app, (sum_points_scored _ _ _ Hs Ht).
  cbn [bind sum_points]. now rewrite Hbad.
Qed.

Lemma X6_first_scoring_error_raised_witness :
  calculate_team_points
    (fun _ _ =>
       VDict [("data",
               VDict [("players", VList (Examples.roster ++ [VNone]))])])
    1608378 "Memos" "token"
  = Raise AttributeError.
Proof.
  apply (X6_first_scoring_error_raised _ 1608378 "Memos" "token"
           Examples.roster []
           [VFloat (double 5); VFloat Examples.float_2_5;
            VFloat (SFopp (double 1))]
           VNone (NFloat Examples.float_6_5)).
  - exists [("data",
             VDict [("players", VList (Examples.roster ++ [VNone]))])],
           [("players", VList (Examples.roster ++ [VNone]))].
    repeat split.
  - repeat constructor.
  - vm_compute. reflexivity.
  - reflexivity.
Defined.



(** X8: an answer whose players list is empty gives the zero-valued
    summary, the very summary a failed fetch gives. *)
Theorem X8_empty_roster_is_zero_summary
    (get_team_preview : Z -> string -> value)
    (team_id : Z) (team_name bearer_token : string) :
  Spec.has_players_list (get_team_preview team_id bearer_token) [] ->
  calculate_team_points get_team_preview team_id team_name bearer_token
  = Ok (mkTeamScore team_id team_name (NInt 0) 0 (VList [])) /\
  calculate_team_points (fun _ _ => VNone) team_id team_name bearer_token
  = Ok (mkTeamScore team_id team_name (NInt 0) 0 (VList [])).
Proof.
  intros Hl. now rewrite (calculate_team_points_sum _ _ _ _ _ Hl).
Qed.

Lemma X8_empty_roster_is_zero_summary_witness :
  calculate_team_points
    (fun _ _ => VDict [("data", VDict [("players", VList [])])])
    1608378 "Memos" "token"
  = Ok (mkTeamScore 1608378 "Memos" (NInt 0) 0 (VList [])) /\
  calculate_team_points (fun _ _ => VNone) 1608378 "Memos" "token"
  = Ok (mkTeamScore 1608378 "Memos" (NInt 0) 0 (VList [])).
Proof.
  apply (X8_empty_roster_is_zero_summary
           (fun _ _ => VDict [("data", VDict [("players", VList [])])])).
  exists [("data", VDict [("players", VList [])])], [("players", VList [])].
  repeat split.
Defined.

Lemma sum_points_integers (roster : list value) (zs : list Z) :
  Forall2 (fun player z => calculate_player_points player = Ok (VInt z))
    roster zs ->
  forall t : Z,
    sum_points (NInt t) roster = Ok (NInt (fold_left Z.add zs t)).
Proof.
  induction 1 as [|player z roster zs Hp _ IH]; intros t; simpl; trivial.
  rewrite Hp. cbn. apply IH.
Qed.

(** X9: a roster whose players all score ints is summed exactly: the
    total is the int that is the sum of the scores, of any size, with no
    rounding and no overflow. *)
Theorem X9_integer_scores_sum_exactly
    (get_team_preview : Z -> string -> value)
    (team_id : Z) (team_name bearer_token : string)
    (roster : list value) (zs : list Z) :
  Spec.has_players_list (get_team_preview team_id bearer_token) roster ->
  Forall2 (fun player z => calculate_player_points player = Ok (VInt z))
    roster zs ->
  calculate_team_points get_team_preview team_id team_name bearer_token =
    Ok (mkTeamScore team_id team_name (NInt (fold_left Z.add zs 0))
          (List.length roster) (VList roster)).
Proof.
  intros Hl Hz. rewrite (calculate_team_points_sum _ _ _ _ _ Hl).
  now rewrite (sum_points_integers _ _ Hz).
Qed.

Lemma X9_integer_scores_sum_exactly_witness :
  calculate_team_points
    (fun _ _ =>
       VDict [("data",
               VDict [("players",
                       VList [VDict [("pts", VInt (2 ^ 60))];
                              VDict Examples.captain_coach;
                              VDict [("pts", VInt (-7))]])])])
    1608378 "Memos" "token"
  = Ok (mkTeamScore 1608378 "Memos" (NInt (2 ^ 60 + 13)) 3
          (VList [VDict [("pts", VInt (2 ^ 60))];
                  VDict Examples.captain_coach;
                  VDict [("pts", VInt (-7))]])).
Proof.
  apply (X9_integer_scores_sum_exactly _ 1608378 "Memos" "token"
           [VDict [("pts", VInt (2 ^ 60))]; VDict Examples.captain_coach;
            VDict [("pts", VInt (-7))]]
           [2 ^ 60; 20; -7]).
  - eexists _, _. repeat split.
  - repeat constructor.
Defined.

Lemma fold_left_add_shift (zs : list Z) (t : Z) :
  fold_left Z.add zs t = t + fold_left Z.add zs 0.
Proof.
  revert t. induction zs as [|z zs IH]; intros t; simpl.
  - lia.
  - rewrite (IH (t + z)), (IH z). lia.
Qed.

Lemma fold_left_add_perm (zs zs' : list Z) :
  Permutation zs zs' -> fold_left Z.add zs 0 = fold_left Z.add zs' 0.
Proof.
  induction 1 as [| z l l' _ IH | y z l | l l' l'' _ IH1 _ IH2]; simpl.
  - reflexivity.
  - rewrite (fold_left_add_shift l z), (fold_left_add_shift l' z). lia.
  - rewrite (fold_left_add_shift l (y + z)), (fold_left_add_shift l (z + y)).
    lia.
  - congruence.
Qed.

(** X10: with int scores the total does not depend on the order of the
    roster: two rosters whose scores are the same ints in another order
    get the same total. *)
Theorem X10_integer_total_order_independent
    (fetch1 fetch2 : Z -> string -> value)
    (team_id : Z) (team_name bearer_token : string)
    (roster1 roster2 : list value) (zs1 zs2 : list Z) :
  Spec.has_players_list (fetch1 team_id bearer_token) roster1 ->
  Spec.has_players_list (fetch2 team_id bearer_token) roster2 ->
  Forall2 (fun player z => calculate_player_points player = Ok (VInt z))
    roster1 zs1 ->
  Forall2 (fun player z => calculate_player_points player = Ok (VInt z))
    roster2 zs2 ->
  Permutation zs1 zs2 ->
  exists ts1 ts2,
    calculate_team_points fetch1 team_id team_name bearer_token = Ok ts1 /\
    calculate_team_points fetch2 team_id team_name bearer_token = Ok ts2 /\
    total_pts ts1 = total_pts ts2.
Proof.
  intros Hl1 Hl2 Hz1 Hz2 Hperm.
  rewrite (calculate_team_points_sum _ _ _ _ _ Hl1).
  rewrite (calculate_team_points_sum _ _ _ _ _ Hl2).
  rewrite (sum_points_integers _ _ Hz1), (sum_points_integers _ _ Hz2).
  eexists _, _. repeat split. simpl.
  now rewrite (fold_left_add_perm _ _ Hperm).
Qed.

Lemma X10_integer_total_order_independent_witness :
  exists ts1 ts2,
    calculate_team_points
      (fun _ _ =>
         VDict [("data",
                 VDict [("players",
                         VList [VDict Examples.coach;
                                VDict Examples.captain_coach])])])
      1608378 "Memos" "token" = Ok ts1 /\
    calculate_team_points
      (fun _ _ =>
         VDict [("data",
                 VDict [("players",
                         VList [VDict Examples.captain_coach;
                                VDict Examples.coach])])])
      1608378 "Memos" "token" = Ok ts2 /\
    total_pts ts1 = total_pts ts2.
Proof.
  apply (X10_integer_total_order_independent _ _ 1608378 "Memos" "token"
           [VDict Examples.coach; VDict Examples.captain_coach]
           [VDict Examples.captain_coach; VDict Examples.coach]
           [10; 20] [20; 10]).
  - eexists _, _. repeat split.
  - eexists _, _. repeat split.
  - repeat constructor.
  - repeat constructor.
  - apply perm_swap.
Defined.

(** X11: unless the answer is an object whose "data" member is an object
    with a "players" member, the aggregator returns the zero-valued
    summary or raises TypeError: it never returns another summary and
    never raises another error. *)
Theorem X11_without_players_member_zero_or_TypeError
    (get_team_preview : Z -> string -> value)
    (team_id : Z) (team_name bearer_token : string) :
  (forall d inner pl,
      get_team_preview team_id bearer_token = VDict d ->
      lookup "data" d = Some (VDict inner) ->
      lookup "players" inner = Some pl -> False) ->
  calculate_team_points get_team_preview team_id team_name bearer_token
  = Ok (mkTeamScore team_id team_name (NInt 0) 0 (VList [])) \/
  calculate_team_points get_team_preview team_id team_name bearer_token
  = Raise TypeError.
Proof.
  intros Hno. unfold calculate_team_points, no_players.
  destruct (get_team_preview team_id bearer_token) as [| b | n | s | l | d]
    eqn:Hdata.
  - left. reflexivity.
  - destruct b; [right | left]; reflexivity.
  - destruct (truthy (VNum n)); [right | left]; reflexivity.
  - destruct (truthy (VStr s)); cbn [negb]; [|left; reflexivity].
    cbn [contains bind]. destruct (is_substring "data" s); cbn; auto.
  - destruct (truthy (VList l)); cbn [negb]; [|left; reflexivity].
    cbn [contains bind].
    destruct (existsb (fun v => eq_str v "data") l); cbn; auto.
  - destruct (truthy (VDict d)); cbn [negb]; [|left; reflexivity].
    cbn [contains subscript bind].
    destruct (lookup "data" d) as [inner|] eqn:Hd; cbn [negb bind];
      [|left; reflexivity].
    destruct inner as [| b | n | s | l | inner]; cbn [contains bind]; auto.
    + destruct (is_substring "players" s); cbn; auto.
    + destruct (existsb (fun v => eq_str v "players") l); cbn; auto.
    + destruct (lookup "players" inner) as [pl|] eqn:Hp; cbn; auto.
      exfalso. exact (Hno d inner pl eq_refl Hd Hp).
Qed.

Lemma X11_without_players_member_zero_or_TypeError_witness :
  calculate_team_points
    (fun _ _ => VList [VStr "error"; VStr "data"]) 1608378 "Memos" "token"
  = Ok (mkTeamScore 1608378 "Memos" (NInt 0) 0 (VList [])) \/
  calculate_team_points
    (fun _ _ => VList [VStr "error"; VStr "data"]) 1608378 "Memos" "token"
  = Raise TypeError.
Proof.
  apply X11_without_players_member_zero_or_TypeError.
  intros d inner pl H. discriminate H.
Defined.

(** ** The ranking loop *)

Lemma collect_team_scores_app
    (get_team_preview : Z -> string -> value)
    (l1 l2 : list (string * Z)) (bearer_token : string) :
  collect_team_scores get_team_preview (l1 ++ l2) bearer_token =
  bind (collect_team_scores get_team_preview l1 bearer_token) (fun s1 =>
    bind (collect_team_scores get_team_preview l2 bearer_token) (fun s2 =>
      Ok (s1 ++ s2))).
Proof.
  induction l1 as [|[name id] l1 IH]; simpl.
  - now destruct (collect_team_scores get_team_preview l2 bearer_token).
  - destruct (calculate_team_points get_team_preview id name bearer_token);
      cbn [bind]; trivial.
    rewrite IH.
    destruct (collect_team_scores get_team_preview l1 bearer_token);
      cbn [bind]; trivial.
    now destruct (collect_team_scores get_team_preview l2 bearer_token).
Qed.

Lemma collect_team_scores_teams
    (get_team_preview : Z -> string -> value)
    (teams : list (string * Z)) (bearer_token : string)
    (team_scores : list TeamScore) :
  collect_team_scores get_team_preview teams bearer_token = Ok team_scores ->
  map (fun ts => (team_name ts, team_id ts)) team_scores = teams.
Proof.
  revert team_scores.
  induction teams as [|[name id] teams IH]; simpl; intros team_scores H.
  - now injection H as <-.
  - destruct (calculate_team_points get_team_preview id name bearer_token)
      as [ts|e] eqn:Hts; cbn [bind] in H; try discriminate.
    destruct (collect_team_scores get_team_preview teams bearer_token)
      as [rest|e]; cbn [bind] in H; try discriminate.
    injection H as <-. simpl.
    destruct (calculate_team_points_invariant _ _ _ _ _ Hts) as (-> & -> & _).
    now rewrite (IH rest).
Qed.

(** X12: when [rank_teams] returns, every configured team is in the
    ranking exactly once, under its own name and id: the names and ids of
    the ranking are a permutation of the items of [teams]. *)
Theorem X12_every_team_ranked_once
    (get_team_preview : Z -> string -> value)
    (teams : list (string * Z)) (bearer_token : string)
    (ranked : list TeamScore) :
  rank_teams get_team_preview teams bearer_token = Ok ranked ->
  Permutation teams (map (fun ts => (team_name ts, team_id ts)) ranked) /\
  List.length ranked = List.length teams.
Proof.
  intros Hr.
  destruct (collect_team_scores_ranked _ _ _ _ Hr) as (scores & Hc & ->).
  pose proof (collect_team_scores_teams _ _ _ _ Hc) as Hteams.
  pose proof (list_sort_reverse_perm total_pts scores) as Hperm.
  split.
  - rewrite <- Hteams. now apply Permutation_map.
  - rewrite <- Hteams, length_map. symmetry.
    now apply Permutation_length.
Qed.

Lemma X12_every_team_ranked_once_witness :
  Permutation Examples.league
    (map (fun ts => (team_name ts, team_id ts))
       [Examples.fetched 2 "B" 20; Examples.fetched 1 "A" 10;
        Examples.fetched 3 "C" 10]) /\
  List.length [Examples.fetched 2 "B" 20; Examples.fetched 1 "A" 10;
               Examples.fetched 3 "C" 10]
  = List.length Examples.league.
Proof.
  apply (X12_every_team_ranked_once Examples.preview Examples.league "token").
  reflexivity.
Defined.

(** X13: [rank_teams] gives up at the first team whose aggregation
    raises: when the teams before it aggregate, the error of that team is
    the error of the whole ranking, and no ranking of the other teams is
    returned. *)
Theorem X13_ranking_aborts_on_first_error
    (get_team_preview : Z -> string -> value)
    (before after : list (string * Z)) (name : string) (id : Z)
    (bearer_token : string) (e : exn) :
  Forall (fun item =>
            exists ts,
              calculate_team_points get_team_preview (snd item) (fst item)
                bearer_token = Ok ts) before ->
  calculate_team_points get_team_preview id name bearer_token = Raise e ->
  rank_teams get_team_preview (before ++ (name, id) :: after) bearer_token
  = Raise e.
Proof.
  intros Hok Hbad. unfold rank_teams. rewrite collect_team_scores_app.
  assert (Hb : exists scores,
             collect_team_scores get_team_preview before bearer_token
             = Ok scores).
  { induction Hok as [|[n i] l (ts & Hts) _ (scores & IH)]; simpl.
    - eauto.
    - simpl in Hts. rewrite Hts, IH. cbn [bind]. eauto. }
  destruct Hb as (scores & ->). cbn [bind collect_team_scores].
  now rewrite Hbad.
Qed.

Lemma X13_ranking_aborts_on_first_error_witness :
  rank_teams
    (fun id _ => if id =? 3 then Examples.null_data
                 else Examples.preview id "")
    ([("A", 1); ("B", 2)] ++ ("C", 3) :: [("D", 4)]) "token"
  = Raise TypeError.
Proof.
  apply X13_ranking_aborts_on_first_error.
  - repeat constructor; eexists; reflexivity.
  - reflexivity.
Defined.

Lemma calculate_team_points_no_roster
    (get_team_preview : Z -> string -> value)
    (team_id : Z) (team_name bearer_token : string) :
  Spec.no_roster (get_team_preview team_id bearer_token) ->
  calculate_team_points get_team_preview team_id team_name bearer_token
  = Ok (Spec.zero_summary team_id team_name).
Proof.
  intros Hno. unfold calculate_team_points.
  now rewrite (no_players_no_roster _ Hno).
Qed.

Lemma zero_summaries_sorted (teams : list (string * Z)) :
  Sorted (key_before total_pts)
    (map (fun item => Spec.zero_summary (snd item) (fst item)) teams).
Proof.
  induction teams as [|item teams IH]; simpl; constructor; trivial.
  destruct teams; constructor. reflexivity.
Qed.

(** X14: when no team has a roster to show (every fetch failed or came
    back without players), [rank_teams] returns every team with total 0
    and no players, in the order in which [teams] lists them. *)
Theorem X14_all_fetches_failed_keeps_order
    (get_team_preview : Z -> string -> value)
    (teams : list (string * Z)) (bearer_token : string) :
  (forall item, In item teams ->
                Spec.no_roster (get_team_preview (snd item) bearer_token)) ->
  rank_teams get_team_preview teams bearer_token =
    Ok (map (fun item => mkTeamScore (snd item) (fst item) (NInt 0) 0
                           (VList [])) teams).
Proof.
  intros Hno. unfold rank_teams.
  assert (Hc : collect_team_scores get_team_preview teams bearer_token =
               Ok (map (fun item => Spec.zero_summary (snd item) (fst item))
                     teams)).
  { induction teams as [|[name id] teams IH]; simpl; trivial.
    rewrite (calculate_team_points_no_roster _ id name)
      by (apply (Hno (name, id)); now left).
    cbn [bind]. rewrite IH; trivial.
    intros item Hin. apply Hno. now right. }
  rewrite Hc. cbn [bind]. f_equal.
  apply list_sort_reverse_fixed, zero_summaries_sorted.
Qed.

Lemma X14_all_fetches_failed_keeps_order_witness :
  rank_teams (fun _ _ => VNone) Examples.league "token" =
    Ok [mkTeamScore 1 "A" (NInt 0) 0 (VList []);
        mkTeamScore 2 "B" (NInt 0) 0 (VList []);
        mkTeamScore 3 "C" (NInt 0) 0 (VList [])].
Proof.
  apply (X14_all_fetches_failed_keeps_order (fun _ _ => VNone)
           Examples.league "token").
  intros item _. apply Spec.absent.
Defined.

(** X15: the team ranked first has the greatest total: when no total is a
    NaN, no team of the ranking has a total above that of the first. *)
Theorem X15_first_ranked_has_greatest_total
    (get_team_preview : Z -> string -> value)
    (teams : list (string * Z)) (bearer_token : string)
    (first : TeamScore) (others : list TeamScore) :
  rank_teams get_team_preview teams bearer_token = Ok (first :: others) ->
  Forall (fun ts => is_nan (total_pts ts) = false) (first :: others) ->
  Forall (fun ts => num_ltb (total_pts first) (total_pts ts) = false) others.
Proof.
  intros Hr Hp.
  destruct (collect_team_scores_ranked _ _ _ _ Hr) as (scores & _ & Heq).
  assert (Hs : StronglySorted (key_before total_pts) (first :: others)).
  { apply sorted_strongly; trivial.
    rewrite Heq. apply list_sort_reverse_sorted. }
  now inversion Hs.
Qed.

Lemma X15_first_ranked_has_greatest_total_witness :
  Forall (fun ts => num_ltb (NInt 20) (total_pts ts) = false)
    [Examples.fetched 1 "A" 10; Examples.fetched 3 "C" 10].
Proof.
  apply (X15_first_ranked_has_greatest_total Examples.preview
           Examples.league "token" (Examples.fetched 2 "B" 20)).
  - reflexivity.
  - repeat constructor.
Defined.

(** X16: [rank_teams] returns a ranking of all the teams whenever every
    answer is either without a roster or carries a list of players whose
    points and multiplier are floats: nothing is raised on such
    answers. *)
Theorem X16_ranking_returns_on_float_rosters
    (get_team_preview : Z -> string -> value)
    (teams : list (string * Z)) (bearer_token : string) :
  (forall item, In item teams ->
     Spec.no_roster (get_team_preview (snd item) bearer_token) \/
     exists roster,
       Spec.has_players_list (get_team_preview (snd item) bearer_token)
         roster /\
       Forall Spec.float_player roster) ->
  exists ranked,
    rank_teams get_team_preview teams bearer_token = Ok ranked /\
    List.length ranked = List.length teams.
Proof.
  intros Hgood.
  assert (Hc : exists scores,
             collect_team_scores get_team_preview teams bearer_token
             = Ok scores).
  { induction teams as [|[name id] teams IH]; simpl.
    - eauto.
    - destruct IH as (rest & ->).
      { intros item Hin. apply Hgood. now right. }
      destruct (Hgood (name, id)) as [Hno | (roster & Hl & Hf)];
        [now left | |].
      + rewrite (calculate_team_points_no_roster _ id name _ Hno).
        cbn [bind]. eauto.
      + destruct (calculate_team_points_returns _ id name _ _ Hl Hf)
          as (scores & total & _ & _ & ->).
        cbn [bind]. eauto. }
  destruct Hc as (scores & Hc). unfold rank_teams. rewrite Hc. cbn [bind].
  eexists. split; [reflexivity|].
  rewrite <- (collect_team_scores_teams _ _ _ _ Hc), length_map.
  symmetry. apply Permutation_length. apply list_sort_reverse_perm.
Qed.

Lemma X16_ranking_returns_on_float_rosters_witness :
  exists ranked,
    rank_teams
      (fun id _ =>
         if id =? 1 then VNone
         else VDict [("data",
                      VDict [("players",
                              VList [VDict [("pts",
                                             VFloat Examples.float_2_5);
                                            ("captain_multiplier",
                                             VFloat (double 2));
                                            ("is_captain", VBool true)]])])])
      [("A", 1); ("B", 2)] "token" = Ok ranked /\
    List.length ranked = 2%nat.
Proof.
  apply (X16_ranking_returns_on_float_rosters _ [("A", 1); ("B", 2)] "token").
  intros item [<- | [<- | []]]; simpl.
  - left. apply Spec.absent.
  - right. eexists. split.
    + eexists _, _. repeat split.
    + repeat constructor.
      eexists _, _. split; [reflexivity|]. split; [reflexivity|].
      split; eexists; reflexivity.
Defined.

(** ** The fetcher *)

(** X17: a failed request is reported and degrades to the zero-valued
    summary: [get_team_preview] returns None, the first message it shows
    names the team id and the error, and the aggregator run on it returns
    the summary with total 0 and no players. *)
Theorem X17_failed_request_reported_and_zero
    (http_get : string -> list (string * string) -> attempt)
    (team_id : Z) (team_name bearer_token message : string)
    (response_text : option string) :
  http_get (preview_url team_id) (preview_headers bearer_token)
  = RequestFailed message response_text ->
  (exists more,
      get_team_preview http_get team_id bearer_token =
      (VNone,
       ("Error fetching data for team " ++ str_of_int team_id ++ ": "
        ++ message)%string :: more)) /\
  calculate_team_points (preview_of http_get) team_id team_name bearer_token
  = Ok (mkTeamScore team_id team_name (NInt 0) 0 (VList [])).
Proof.
  intros Hfail. unfold calculate_team_points, preview_of, get_team_preview.
  rewrite Hfail. split; [|reflexivity]. eexists. reflexivity.
Qed.

Lemma X17_failed_request_reported_and_zero_witness :
  (exists more,
      get_team_preview
        (fun _ _ => RequestFailed "404 Client Error" (Some "Not Found"))
        1608378 "token" =
      (VNone, "Error fetching data for team 1608378: 404 Client Error"
              :: more)) /\
  calculate_team_points
    (preview_of
       (fun _ _ => RequestFailed "404 Client Error" (Some "Not Found")))
    1608378 "Memos" "token"
  = Ok (mkTeamScore 1608378 "Memos" (NInt 0) 0 (VList [])).
Proof.
  apply (X17_failed_request_reported_and_zero
           (fun _ _ => RequestFailed "404 Client Error" (Some "Not Found"))
           1608378 "Memos" "token" "404 Client Error" (Some "Not Found")).
  reflexivity.
Defined.

Lemma append_cancel_left (p a b : string) :
  (p ++ a)%string = (p ++ b)%string -> a = b.
Proof.
  induction p as [|c p IH]; simpl; intros H; trivial.
  injection H as H. auto.
Qed.

Lemma length_append_string (a b : string) :
  String.length (a ++ b) = (String.length a + String.length b)%nat.
Proof. induction a; simpl; congruence. Qed.

Lemma append_cancel_right (a b t : string) :
  (a ++ t)%string = (b ++ t)%string -> a = b.
Proof.
  revert b. induction a as [|c a IH]; intros [|c' b] H; simpl in H; trivial.
  - apply (f_equal String.length) in H. simpl in H.
    rewrite length_append_string in H. lia.
  - apply (f_equal String.length) in H. simpl in H.
    rewrite length_append_string in H. lia.
  - injection H as -> H. f_equal. auto.
Qed.

Lemma to_int_not_nil (z : Z) :
  Z.to_int z <> Decimal.Pos Decimal.Nil /\
  Z.to_int z <> Decimal.Neg Decimal.Nil.
Proof.
  split; intros H; pose proof (DecimalZ.of_to z) as Hz;
    rewrite H in Hz; simpl in Hz; subst z; discriminate H.
Qed.

Lemma str_of_int_inj (a b : Z) : str_of_int a = str_of_int b -> a = b.
Proof.
  unfold str_of_int. intros H. apply DecimalZ.to_int_inj.
  destruct (to_int_not_nil a) as [Ha1 Ha2].
  destruct (to_int_not_nil b) as [Hb1 Hb2].
  pose proof (NilZero.isi _ Ha1 Ha2) as Ia.
  pose proof (NilZero.isi _ Hb1 Hb2) as Ib.
  rewrite H in Ia. congruence.
Qed.

(** X18: the URL of a team tells the team: two team ids that are fetched
    from the same URL are the same id. *)
Theorem X18_preview_url_injective (id1 id2 : Z) :
  preview_url id1 = preview_url id2 -> id1 = id2.
Proof.
  unfold preview_url. intros H.
  apply append_cancel_left, append_cancel_right in H.
  now apply str_of_int_inj.
Qed.

Lemma X18_preview_url_injective_witness : 1608378 = 1608378.
Proof.
  apply X18_preview_url_injective. reflexivity.
Defined.

(** ** The rows of the team details *)

Section DisplayFacts.

Variable format : value -> string.

Lemma modifier_string_dash (is_captain multiplier : value) (bench : bool) :
  modifier_string format is_captain multiplier bench = "-" ->
  truthy is_captain = false /\ bench = false.
Proof.
  unfold modifier_string.
  destruct (truthy is_captain), bench; simpl; intros H;
    try discriminate; auto.
Qed.

(** The row of a player, field by field. *)
Lemma player_row_fields (p : value) (row : PlayerRow) :
  player_row format p = Ok row ->
  exists d base flag mult cp,
    p = VDict d /\
    get p "pts" (VInt 0) = Ok base /\
    get p "is_captain" (VBool false) = Ok flag /\
    get p "captain_multiplier" (VInt 1) = Ok mult /\
    get p "court_position" (VInt 0) = Ok cp /\
    calculate_player_points p = Ok (row_final_points row) /\
    row_base_points row = base /\
    row_modifiers row
    = modifier_string format flag mult (in_int_list cp bench) /\
    row_captain row = (if truthy flag then star else "") /\
    row_bench row = (if in_int_list cp bench then chair else "").
Proof.
  unfold player_row.
  destruct p as [| | | | | d]; try discriminate.
  destruct (get (VDict d) "pts" (VInt 0)) as [base|] eqn:Hb;
    cbn [bind]; try discriminate.
  destruct (get (VDict d) "is_captain" (VBool false)) as [flag|] eqn:Hf;
    cbn [bind]; try discriminate.
  destruct (get (VDict d) "captain_multiplier" (VInt 1)) as [mult|] eqn:Hm;
    cbn [bind]; try discriminate.
  destruct (get (VDict d) "court_position" (VInt 0)) as [cp|] eqn:Hc;
    cbn [bind]; try discriminate.
  destruct (calculate_player_points (VDict d)) as [final|] eqn:Hs;
    cbn [bind]; try discriminate.
  destruct (get (VDict d) "first_name" (VStr "")); cbn [bind];
    try discriminate.
  destruct (get (VDict d) "last_name" (VStr "")); cbn [bind];
    try discriminate.
  destruct (get (VDict d) "position" (VDict [])) as [position|];
    cbn [bind]; try discriminate.
  destruct (get position "name" (VStr "Unknown")); cbn [bind];
    try discriminate.
  destruct (get (VDict d) "team" (VDict [])) as [team|]; cbn [bind];
    try discriminate.
  destruct (get team "abbreviation" (VStr "N/A")); cbn [bind];
    try discriminate.
  destruct (get (VDict d) "quotation" (VInt 0)); cbn [bind];
    try discriminate.
  intros H. injection H as <-. cbn.
  exists d, base, flag, mult, cp. repeat split; trivial.
Qed.

(** X19: the row of a player agrees with the score: its final points are
    what [calculate_player_points] returns, and when its modifiers read
    "-", or its captain and bench marks are both empty, the final points
    are the base points. *)
Theorem X19_row_agrees_with_score (p : value) (row : PlayerRow) :
  player_row format p = Ok row ->
  calculate_player_points p = Ok (row_final_points row) /\
  (row_modifiers row = "-" -> row_final_points row = row_base_points row) /\
  (row_captain row = "" -> row_bench row = "" ->
   row_final_points row = row_base_points row).
Proof.
  intros Hrow.
  destruct (player_row_fields p row Hrow)
    as (d & base & flag & mult & cp & -> & Hb & Hf & Hm & Hc & Hs
        & Hbase & Hmod & Hcap & Hbench).
  assert (Hplain : truthy flag = false -> in_int_list cp bench = false ->
                   row_final_points row = row_base_points row).
  { intros Hflag Hcp. unfold calculate_player_points in Hs.
    rewrite Hb, Hf, Hm, Hc in Hs. cbn [bind] in Hs.
    rewrite Hflag, Hcp in Hs. cbn [bind] in Hs. congruence. }
  split; [exact Hs | split].
  - rewrite Hmod. intros Hdash.
    destruct (modifier_string_dash _ _ _ Hdash). auto.
  - rewrite Hcap, Hbench. intros H1 H2. apply Hplain.
    + destruct (truthy flag); [discriminate H1 | reflexivity].
    + destruct (in_int_list cp bench); [discriminate H2 | reflexivity].
Qed.

Lemma player_rows_scores (items : list value) (rows : list PlayerRow) :
  player_rows format items = Ok rows ->
  Forall2 (fun player pts => calculate_player_points player = Ok pts)
    items (map row_final_points rows).
Proof.
  revert rows. induction items as [|p items IH]; simpl; intros rows H.
  - injection H as <-. constructor.
  - destruct (player_row format p) as [row|] eqn:Hrow; cbn [bind] in H;
      try discriminate.
    destruct (player_rows format items) as [rest|]; cbn [bind] in H;
      try discriminate.
    injection H as <-. simpl. constructor.
    + destruct (player_row_fields p row Hrow)
        as (? & ? & ? & ? & ? & _ & _ & _ & _ & _ & Hs & _).
      exact Hs.
    + now apply IH.
Qed.

Lemma iterate_falsy (pl : value) (items : list value) :
  truthy pl = false -> iterate pl = Ok items -> items = [].
Proof.
  destruct pl as [| | | s | l | d]; simpl; try discriminate.
  - destruct s; [|discriminate]. intros _ H. now injection H as <-.
  - destruct l; [|discriminate]. intros _ H. now injection H as <-.
  - destruct d; [|discriminate]. intros _ H. now injection H as <-.
Qed.

(** X20: the details of a team add up to its total: for a summary the
    aggregator returned, the final points of the rows shown for it,
    summed from left to right, are its total, and there are as many rows
    as its player count says. *)
Theorem X20_rows_sum_to_total
    (get_team_preview : Z -> string -> value)
    (team_id : Z) (team_name bearer_token : string)
    (ts : TeamScore) (rows : list PlayerRow) :
  calculate_team_points get_team_preview team_id team_name bearer_token
  = Ok ts ->
  players_data format ts = Ok rows ->
  Spec.sum_left (map row_final_points rows) = Ok (total_pts ts) /\
  List.length rows = player_count ts.
Proof.
  intros Hts Hrows.
  destruct (calculate_team_points_invariant _ _ _ _ _ Hts)
    as (_ & _ & items & Hit & Hsum & Hcount).
  unfold players_data in Hrows.
  destruct (truthy (players ts)) eqn:Htruthy.
  - rewrite Hit in Hrows. cbn [bind] in Hrows.
    pose proof (player_rows_scores _ _ Hrows) as Hs.
    split.
    + unfold Spec.sum_left. rewrite <- (sum_points_fold _ _ Hs). exact Hsum.
    + rewrite Hcount, (Forall2_length Hs). now rewrite length_map.
  - injection Hrows as <-.
    rewrite (iterate_falsy _ _ Htruthy Hit) in Hsum, Hcount.
    simpl in Hsum. split; [|now rewrite Hcount].
    unfold Spec.sum_left. simpl. congruence.
Qed.

(** X21: the row of a scored player can be built unless its "position"
    or "team" member is present and not an object: with both absent or
    objects [player_row] returns a row. *)
Theorem X21_row_built_for_scored_player
    (d : list (string * value)) (pts : value) :
  calculate_player_points (VDict d) = Ok pts ->
  (forall v, lookup "position" d = Some v -> exists o, v = VDict o) ->
  (forall v, lookup "team" d = Some v -> exists o, v = VDict o) ->
  exists row,
    player_row format (VDict d) = Ok row /\ row_final_points row = pts.
Proof.
  intros Hs Hpos Hteam. unfold player_row. rewrite Hs. unfold get.
  destruct (lookup "pts" d); destruct (lookup "is_captain" d);
    destruct (lookup "captain_multiplier" d);
    destruct (lookup "court_position" d);
    destruct (lookup "first_name" d); destruct (lookup "last_name" d);
    destruct (lookup "quotation" d); cbn [bind];
    (destruct (lookup "position" d) as [position|];
     [destruct (Hpos position eq_refl) as (o & ->) |]);
    (destruct (lookup "team" d) as [team|];
     [destruct (Hteam team eq_refl) as (o' & ->) |]);
    cbn [bind];
    repeat match goal with
           | |- context [lookup ?k ?o] => destruct (lookup k o)
           end;
    cbn [bind]; eexists; split; reflexivity.
Qed.

End DisplayFacts.

Lemma X19_row_agrees_with_score_witness :
  exists row,
    player_row (fun _ => "?") (VDict Examples.coach) = Ok row /\
    calculate_player_points (VDict Examples.coach)
    = Ok (row_final_points row) /\
    (row_modifiers row = "-" -> row_final_points row = row_base_points row) /\
    (row_captain row = "" -> row_bench row = "" ->
     row_final_points row = row_base_points row).
Proof.
  eexists. split.
  - reflexivity.
  - apply (X19_row_agrees_with_score (fun _ => "?") (VDict Examples.coach)).
    reflexivity.
Defined.

Lemma X20_rows_sum_to_total_witness :
  exists rows,
    players_data (fun _ => "?")
      (mkTeamScore 1608378 "Memos" (NFloat Examples.float_6_5) 3
         (VList Examples.roster)) = Ok rows /\
    Spec.sum_left (map row_final_points rows)
    = Ok (NFloat Examples.float_6_5) /\
    List.length rows = 3%nat.
Proof.
  eexists. split.
  - reflexivity.
  - apply (X20_rows_sum_to_total (fun _ => "?")
             (fun _ _ => Examples.roster_answer) 1608378 "Memos" "token"
             (mkTeamScore 1608378 "Memos" (NFloat Examples.float_6_5) 3
                (VList Examples.roster))).
    + vm_compute. reflexivity.
    + reflexivity.
Defined.

Lemma X21_row_built_for_scored_player_witness :
  exists row,
    player_row (fun _ => "?")
      (VDict (("position", VDict [("name", VStr "Guard")])
              :: Examples.captain_coach)) = Ok row /\
    row_final_points row = VInt 20.
Proof.
  apply (X21_row_built_for_scored_player (fun _ => "?")).
  - reflexivity.
  - intros v H. injection H as <-. eauto.
  - intros v H. discriminate H.
Defined.
